(** * test-records.js: the record validator and its auto-fix pass

    A shallow embedding of [src/test-records.js].  The script walks two
    directories of JSON records, checks each file against a schema and,
    for the companies, a set of heuristic rules ([additional_checks]);
    started with [--auto-fix] it writes a corrected copy of the record
    back to the file.

    Modelling conventions.
    - A JavaScript string is a [string] of code units below 256; the
      whitespace of [trim] and of the regular expression classes is the
      ECMAScript set restricted to that range.  The disk holds the text
      of a file as [toString] decodes it.
    - A parsed JSON value is a [json] tree.  Objects keep their properties
      in creation order.  Numbers are integers.  [ToString] throws where
      the engine does: on an object that has a property [toString] of its
      own, and on an array that holds one.
    - An uncaught exception is the [Throw] outcome of [result]; the script
      catches the one of [JSON.parse] and no other.
    - The file system is a [disk]: the contents of every path and the log
      of the [writeFileSync] calls made so far.
    - The reference tables of the npm packages ([countries-list],
      [all-the-cities]), the template catalogue read from the [templates]
      directory, the compiled schemas, the listing [glob.sync] returns
      for a directory and [JSON.parse], as the file walker calls it, are
      arguments of the model.  The reducer that
      builds the catalogue is modelled on its own, over the listing of the
      template files.
    - The console is the list of the [console.error] calls made. *)

From stdpp Require Import gmap strings list fin_maps pretty.
From Stdlib Require Import ZArith Ascii String.

Open Scope string_scope.
Set Warnings "-register-all".

(** ** JavaScript strings *)

Module JSString.

Definition LF : ascii := "010"%char.
Definition NL : string := String LF "".
Definition SP : ascii := " "%char.

(** The double quote, and a text in which every ['] stands for one: the
    way JSON texts are written down below. *)
Definition DQ : ascii := "034"%char.

Fixpoint dq (s : string) : string :=
  match s with
  | EmptyString => EmptyString
  | String c s' => String (if bool_decide (c = "'"%char) then DQ else c) (dq s')
  end.

(** [WhiteSpace] and [LineTerminator] of ECMAScript below U+0100: TAB, LF,
    VT, FF, CR, SP and NBSP.  [String.prototype.trim] strips them and the
    class [\s] matches them. *)
Definition is_whitespace (c : ascii) : bool :=
  bool_decide (N_of_ascii c ∈ [9; 10; 11; 12; 13; 32; 160]%N).

(** The class [\d]. *)
Definition is_digit (c : ascii) : bool :=
  bool_decide (48 ≤ N_of_ascii c ≤ 57)%N.

Fixpoint trimStart (s : string) : string :=
  match s with
  | String c s' => if is_whitespace c then trimStart s' else s
  | EmptyString => EmptyString
  end.

Fixpoint trimEnd (s : string) : string :=
  match s with
  | String c s' =>
      match trimEnd s' with
      | EmptyString => if is_whitespace c then EmptyString else String c EmptyString
      | r => String c r
      end
  | EmptyString => EmptyString
  end.

(** [s.trim()] *)
Definition trim (s : string) : string := trimEnd (trimStart s).

(** [s.split('\n')]: never empty, [''.split('\n')] is [['']]. *)
Fixpoint split_LF (s : string) : list string :=
  match s with
  | EmptyString => [EmptyString]
  | String c s' =>
      if bool_decide (c = LF) then EmptyString :: split_LF s'
      else match split_LF s' with
           | h :: t => String c h :: t
           | [] => [String c EmptyString]
           end
  end.

(** [lines.join('\n')] *)
Definition join_LF (lines : list string) : string := String.concat NL lines.

(** [s.endsWith(suffix)] *)
Definition endsWith (s suffix : string) : bool :=
  bool_decide (String.length suffix ≤ String.length s)%nat &&
  bool_decide
    (substring (String.length s - String.length suffix) (String.length suffix) s
     = suffix).

(** [arr.includes(x)] on an array of strings, for a string [x]. *)
Definition includes (arr : list string) (x : string) : bool :=
  bool_decide (x ∈ arr).

(** [arr.indexOf(x)], [None] standing for [-1]. *)
Fixpoint indexOf (arr : list string) (x : string) : option nat :=
  match arr with
  | [] => None
  | y :: arr' => if bool_decide (y = x) then Some 0 else S <$> indexOf arr' x
  end.

(** [path.basename(f)] for a POSIX path without a trailing slash. *)
Fixpoint basename (f : string) : string :=
  match f with
  | EmptyString => EmptyString
  | String c f' =>
      if bool_decide (c = "/"%char) then basename f'
      else if bool_decide ("/"%char ∈ list_ascii_of_string f') then basename f'
      else f
  end.

End JSString.
Import JSString.

(** ** JSON values and the JavaScript operations on them *)

Inductive json : Type :=
| JNull
| JBool (b : bool)
| JNum (n : Z)
| JStr (s : string)
| JArr (xs : list json)
| JObj (props : list (string * json)).

(** An uncaught exception, or a normal completion. *)
Inductive js_error : Type :=
| TypeError (what : string)
| SyntaxError (what : string)
| ENOENT (path : string).

Inductive result (A : Type) : Type :=
| Ok (a : A)
| Throw (e : js_error).
Arguments Ok {A} a.
Arguments Throw {A} e.

#[global] Instance result_ret : MRet result := λ A a, Ok a.
#[global] Instance result_bind : MBind result := λ A B k m,
  match m with
  | Ok a => k a
  | Throw e => Throw e
  end.

Module JS.

(** Own property lookup [o[k]] on the property list of an object;
    [None] is [undefined]. *)
Fixpoint get (k : string) (props : list (string * json)) : option json :=
  match props with
  | [] => None
  | (k', v) :: rest => if bool_decide (k' = k) then Some v else get k rest
  end.

(** Assignment [o[k] = v]: an existing property keeps its place, a new
    one goes last. *)
Fixpoint set (k : string) (v : json) (props : list (string * json))
  : list (string * json) :=
  match props with
  | [] => [(k, v)]
  | (k', v') :: rest =>
      if bool_decide (k' = k) then (k, v) :: rest else (k', v') :: set k v rest
  end.

(** [Object.keys(o)] *)
Definition keys (props : list (string * json)) : list string := props.*1.

(** [ToBoolean] of a possibly undefined value. *)
Definition truthy (v : option json) : bool :=
  match v with
  | None | Some JNull => false
  | Some (JBool b) => b
  | Some (JNum n) => negb (bool_decide (n = 0%Z))
  | Some (JStr s) => negb (bool_decide (s = ""))
  | Some (JArr _) | Some (JObj _) => true
  end.

(** [ToString], as applied by template literals, by [+] with a string
    and to a property key.  An object goes through [ToPrimitive], which
    calls its [toString] and, when that gives no primitive, its
    [valueOf].  An object that [JSON.parse] built inherits both: the
    first gives ['[object Object]'].  A property [toString] of its own
    hides the inherited method and is no function; [valueOf] is then
    hidden as well or returns the object, and the conversion throws.  An
    array joins the conversions of its elements, [null] giving the empty
    text, and throws when one of them does. *)
Fixpoint ToString_json (v : json) : result string :=
  match v with
  | JNull => Ok "null"
  | JBool true => Ok "true"
  | JBool false => Ok "false"
  | JNum n => Ok (pretty n)
  | JStr s => Ok s
  | JArr xs =>
      parts ← (fix elements (xs : list json) : result (list string) :=
                 match xs with
                 | [] => Ok []
                 | x :: rest =>
                     part ← match x with
                            | JNull => Ok ""
                            | _ => ToString_json x
                            end;
                     parts ← elements rest;
                     Ok (part :: parts)
                 end) xs;
      Ok (String.concat "," parts)
  | JObj props =>
      if bool_decide ("toString" ∈ keys props)
      then Throw (TypeError "Cannot convert object to primitive value")
      else Ok "[object Object]"
  end.

Definition ToString (v : option json) : result string :=
  match v with
  | None => Ok "undefined"
  | Some v => ToString_json v
  end.

(** [v.p] for a property name [p] that no built-in prototype defines:
    a [TypeError] on [null], the own property of an object, [undefined]
    on every other value. *)
Definition member (v : json) (p : string) : result (option json) :=
  match v with
  | JNull => Throw (TypeError ("Cannot read properties of null (reading '" ++ p ++ "')"))
  | JObj props => Ok (get p props)
  | _ => Ok None
  end.

(** [a !== b] when [b] is the value [JSON.parse] has just returned:
    objects and arrays are compared by identity, and a newly allocated
    one is identical to nothing else; primitives are compared by
    value. *)
Definition strict_neq_fresh (a b : json) : bool :=
  match a, b with
  | JNull, JNull => false
  | JBool x, JBool y => negb (bool_decide (x = y))
  | JNum x, JNum y => negb (bool_decide (x = y))
  | JStr x, JStr y => negb (bool_decide (x = y))
  | _, _ => true
  end.

End JS.

(** ** JSON text: [JSON.parse] and [JSON.stringify(v, null, 4)]

    The two built-ins on the fragment the records use: objects, arrays,
    strings with the JSON escapes, integer literals, [true], [false] and
    [null].  [JSON_parse] is the parser the example files are read with;
    the file walker and the properties about it take the parser as an
    argument.  Outside the fragment, and rejected by [JSON_parse]: a
    number literal with a fraction or an exponent, and a [\u] escape of a
    code unit above 255.  Property names that look like array indices,
    which an engine enumerates before the others, do not occur in the
    example records. *)

Module JSONText.

Definition is_json_ws (c : ascii) : bool :=
  bool_decide (N_of_ascii c ∈ [9; 10; 13; 32]%N).

Fixpoint skip_ws (s : string) : string :=
  match s with
  | String c s' => if is_json_ws c then skip_ws s' else s
  | EmptyString => EmptyString
  end.

Definition hex_value (c : ascii) : option N :=
  let n := N_of_ascii c in
  if bool_decide (48 ≤ n ≤ 57)%N then Some (n - 48)%N
  else if bool_decide (97 ≤ n ≤ 102)%N then Some (n - 87)%N
  else if bool_decide (65 ≤ n ≤ 70)%N then Some (n - 55)%N
  else None.

(** The code unit of [\uXXXX]. *)
Definition unicode_escape (h1 h2 h3 h4 : ascii) : option ascii :=
  a ← hex_value h1; b ← hex_value h2; c ← hex_value h3; d ← hex_value h4;
  let n := (((a * 16 + b) * 16 + c) * 16 + d)%N in
  if bool_decide (n < 256)%N then Some (ascii_of_N n) else None.

Definition simple_escape (e : ascii) : option ascii :=
  if bool_decide (e = DQ) then Some DQ
  else if bool_decide (e = "\"%char) then Some "\"%char
  else if bool_decide (e = "/"%char) then Some "/"%char
  else if bool_decide (e = "b"%char) then Some "008"%char
  else if bool_decide (e = "f"%char) then Some "012"%char
  else if bool_decide (e = "n"%char) then Some "010"%char
  else if bool_decide (e = "r"%char) then Some "013"%char
  else if bool_decide (e = "t"%char) then Some "009"%char
  else None.

(** The characters after an opening quote, up to the closing one. *)
Fixpoint parse_string_body (s : string) : option (string * string) :=
  match s with
  | EmptyString => None
  | String c s' =>
      if bool_decide (c = DQ) then Some (EmptyString, s')
      else if bool_decide (c = "\"%char) then
        match s' with
        | String "u" (String h1 (String h2 (String h3 (String h4 r)))) =>
            u ← unicode_escape h1 h2 h3 h4;
            '(body, rest) ← parse_string_body r;
            Some (String u body, rest)
        | String e r =>
            u ← simple_escape e;
            '(body, rest) ← parse_string_body r;
            Some (String u body, rest)
        | EmptyString => None
        end
      else if bool_decide (N_of_ascii c < 32)%N then None
      else
        '(body, rest) ← parse_string_body s';
        Some (String c body, rest)
  end.

Fixpoint take_digits (s : string) : string * string :=
  match s with
  | String c s' =>
      if is_digit c then let '(ds, rest) := take_digits s' in (String c ds, rest)
      else (EmptyString, s)
  | EmptyString => (EmptyString, EmptyString)
  end.

Fixpoint digits_value (acc : N) (ds : string) : N :=
  match ds with
  | String c ds' => digits_value (acc * 10 + (N_of_ascii c - 48))%N ds'
  | EmptyString => acc
  end.

Definition starts_fraction_or_exponent (s : string) : bool :=
  match s with
  | String c _ => bool_decide (c ∈ ["."; "e"; "E"]%char)
  | EmptyString => false
  end.

Definition parse_number (s : string) : option (Z * string) :=
  let '(negative, s1) :=
    match s with
    | String "-" r => (true, r)
    | _ => (false, s)
    end in
  let '(ds, rest) := take_digits s1 in
  match ds with
  | EmptyString => None
  | String "0" (String _ _) => None
  | _ =>
      if starts_fraction_or_exponent rest then None
      else
        let n := Z.of_N (digits_value 0 ds) in
        Some (if negative then (- n)%Z else n, rest)
  end.

Definition expect_literal (lit : string) (v : json) (s : string)
  : option (json * string) :=
  if String.prefix lit s
  then Some (v, substring (String.length lit) (String.length s - String.length lit) s)
  else None.

Fixpoint parse_value (fuel : nat) (s : string) : option (json * string) :=
  match fuel with
  | O => None
  | S fuel =>
      match skip_ws s with
      | String "{" r =>
          match skip_ws r with
          | String "}" r' => Some (JObj [], r')
          | r' => '(props, rest) ← parse_members fuel [] r'; Some (JObj props, rest)
          end
      | String "[" r =>
          match skip_ws r with
          | String "]" r' => Some (JArr [], r')
          | r' => '(xs, rest) ← parse_elements fuel r'; Some (JArr xs, rest)
          end
      | String "034" r => '(str, rest) ← parse_string_body r; Some (JStr str, rest)
      | String "t" _ as s' => expect_literal "true" (JBool true) s'
      | String "f" _ as s' => expect_literal "false" (JBool false) s'
      | String "n" _ as s' => expect_literal "null" JNull s'
      | s' => '(n, rest) ← parse_number s'; Some (JNum n, rest)
      end
  end
with parse_elements (fuel : nat) (s : string) : option (list json * string) :=
  match fuel with
  | O => None
  | S fuel =>
      '(v, rest) ← parse_value fuel s;
      match skip_ws rest with
      | String "," r => '(vs, rest') ← parse_elements fuel r; Some (v :: vs, rest')
      | String "]" r => Some ([v], r)
      | _ => None
      end
  end
with parse_members (fuel : nat) (acc : list (string * json)) (s : string)
  : option (list (string * json) * string) :=
  match fuel with
  | O => None
  | S fuel =>
      match skip_ws s with
      | String "034" r =>
          '(k, rest) ← parse_string_body r;
          match skip_ws rest with
          | String ":" r' =>
              '(v, rest') ← parse_value fuel r';
              let acc' := JS.set k v acc in
              match skip_ws rest' with
              | String "," r'' => parse_members fuel acc' r''
              | String "}" r'' => Some (acc', r'')
              | _ => None
              end
          | _ => None
          end
      | _ => None
      end
  end.

(** [JSON.parse(text)] *)
Definition JSON_parse (text : string) : result json :=
  match parse_value (S (String.length text)) text with
  | Some (v, rest) =>
      match skip_ws rest with
      | EmptyString => Ok v
      | _ => Throw (SyntaxError "Unexpected non-whitespace character after JSON")
      end
  | None => Throw (SyntaxError "Unexpected token in JSON")
  end.

Definition hex_digit (n : N) : ascii :=
  if bool_decide (n < 10)%N then ascii_of_N (48 + n) else ascii_of_N (87 + n).

(** [QuoteJSONString] *)
Fixpoint quote_body (s : string) : string :=
  match s with
  | EmptyString => EmptyString
  | String c s' =>
      let n := N_of_ascii c in
      (if bool_decide (c = DQ) then String "\" (String DQ "")
       else if bool_decide (c = "\"%char) then "\\"
       else if bool_decide (n = 8)%N then "\b"
       else if bool_decide (n = 9)%N then "\t"
       else if bool_decide (n = 10)%N then "\n"
       else if bool_decide (n = 12)%N then "\f"
       else if bool_decide (n = 13)%N then "\r"
       else if bool_decide (n < 32)%N
            then "\u00" ++ String (hex_digit (n / 16)) (String (hex_digit (n mod 16)) "")
       else String c "") ++ quote_body s'
  end.

Definition quote (s : string) : string :=
  String DQ (quote_body s ++ String DQ "").

(** [JSON.stringify(v, null, 4)], [indent] being the indentation of the
    line the value starts on. *)
Fixpoint stringify (indent : string) (v : json) : string :=
  let inner := indent ++ "    " in
  match v with
  | JNull => "null"
  | JBool true => "true"
  | JBool false => "false"
  | JNum n => pretty n
  | JStr s => quote s
  | JArr [] => "[]"
  | JArr xs =>
      "[" ++ NL ++ inner
      ++ String.concat ("," ++ NL ++ inner) (map (stringify inner) xs)
      ++ NL ++ indent ++ "]"
  | JObj [] => "{}"
  | JObj props =>
      "{" ++ NL ++ inner
      ++ String.concat ("," ++ NL ++ inner)
           (map (λ kv, quote kv.1 ++ ": " ++ stringify inner kv.2) props)
      ++ NL ++ indent ++ "}"
  end.

Definition JSON_stringify_4 (v : json) : string := stringify "" v.

End JSONText.

Import JSONText.

(** ** Reference data and findings *)

(** An entry of [countries-list]; only [name] and [native] are read. *)
Record country : Type := { name : string; native : string }.

(** An entry of [all-the-cities]; only [name] and [country] are read. *)
Record city : Type := { city_name : string; city_country : string }.

Definition country_name_variations : list string :=
  ["United States of America"; "The Netherlands"; "Republic of Singapore"].
Definition variation_countrycodes : list string := ["US"; "NL"; "SG"].

Inductive event_type : Type := TError | TAutofix.

#[global] Instance event_type_eq_dec : EqDecision event_type.
Proof. solve_decision. Defined.

(** What the [error] property of a finding holds: the exception
    [JSON.parse] threw, or the error list of the schema validator. *)
Inductive error_object : Type :=
| ParseError (e : js_error)
| SchemaErrors (errs : list string).

Record TestEvent : Type := {
  type : option event_type;
  msg : string;
  ref : option string;
  error : option error_object
}.

(** [{ msg }] and [{ msg, ref }], as the rules push them. *)
Definition ev_msg (m : string) : TestEvent :=
  {| type := None; msg := m; ref := None; error := None |}.
Definition ev_msg_ref (m r : string) : TestEvent :=
  {| type := None; msg := m; ref := Some r; error := None |}.

(** [{ ...e, type }] *)
Definition with_type (t : event_type) (e : TestEvent) : TestEvent :=
  {| type := Some t; msg := msg e; ref := ref e; error := error e |}.

(** The file system: what every path holds, and the [writeFileSync]
    calls made so far, oldest first. *)
Record disk : Type := {
  contents : gmap string string;
  writes : list (string * string)
}.

Definition readFileSync (f : string) (d : disk) : result string :=
  match contents d !! f with
  | Some text => Ok text
  | None => Throw (ENOENT f)
  end.

Definition writeFileSync (f text : string) (d : disk) : disk :=
  {| contents := <[f := text]> (contents d); writes := writes d ++ [(f, text)] |}.

(** ** The country matcher, lines 90-97 *)

Definition isLastLineCountry (countries : gmap string country)
    (last_line : string) (country_name_variations : list string) : bool :=
  existsb
    (λ '(countrycode, v),
       (negb (includes variation_countrycodes countrycode)
        && bool_decide (name v = last_line))
       || bool_decide (native v = last_line))
    (map_to_list countries)
  || includes country_name_variations last_line.

(** ** The city pattern of line 197

    The regular expression reads: any number of digits and spaces, one
    space, then the captured group, any number of characters that are a
    space or no whitespace. *)

Definition digit_or_space (c : ascii) : bool := is_digit c || bool_decide (c = SP).
Definition non_whitespace_or_space (c : ascii) : bool :=
  negb (is_whitespace c) || bool_decide (c = SP).

(** The part before the group, anchored at the start of [s]: the star is
    greedy and gives characters back until the literal space matches; the
    result is the text after that space. *)
Fixpoint match_digits_then_space (s : string) : option string :=
  match s with
  | String c s' =>
      if digit_or_space c then
        match match_digits_then_space s' with
        | Some r => Some r
        | None => if bool_decide (c = SP) then Some s' else None
        end
      else None
  | EmptyString => None
  end.

(** The group: the longest prefix of spaces and non-whitespace. *)
Fixpoint take_non_whitespace_or_space (s : string) : string :=
  match s with
  | String c s' =>
      if non_whitespace_or_space c then String c (take_non_whitespace_or_space s')
      else EmptyString
  | EmptyString => EmptyString
  end.

(** [pattern.exec(s)], reduced to its first group: the leftmost start at
    which the pattern matches, [None] for a [null] result. *)
Fixpoint city_pattern_exec (s : string) : option string :=
  match match_digits_then_space s with
  | Some r => Some (take_non_whitespace_or_space r)
  | None =>
      match s with
      | String _ s' => city_pattern_exec s'
      | EmptyString => None
      end
  end.

(** ** The rule engine, [additional_checks], lines 104-228 *)

(** The three locals every rule works on. *)
Record checks_state : Type := {
  af_json : list (string * json);
  errors : list TestEvent;
  autofixes : list TestEvent
}.

Definition push_error (e : TestEvent) (st : checks_state) : checks_state :=
  {| af_json := af_json st; errors := errors st ++ [e]; autofixes := autofixes st |}.

Definition push_autofix (e : TestEvent) (st : checks_state) : checks_state :=
  {| af_json := af_json st; errors := errors st; autofixes := autofixes st ++ [e] |}.

(** [af_json[key] = v] *)
Definition set_af_json (key : string) (v : json) (st : checks_state) : checks_state :=
  {| af_json := JS.set key v (af_json st); errors := errors st;
     autofixes := autofixes st |}.

(** [for (const x of xs) body], in the exception monad. *)
Fixpoint for_of {A S : Type} (xs : list A) (body : A → S → result S) (st : S)
  : result S :=
  match xs with
  | [] => Ok st
  | x :: xs' => st' ← body x st; for_of xs' body st'
  end.

(** [v === s] for a string [s]. *)
Definition strict_eq_string (v : option json) (s : string) : bool :=
  match v with
  | Some (JStr s') => bool_decide (s' = s)
  | _ => false
  end.

(** [arr.includes(v)] on an array of strings. *)
Definition includes_value (arr : list string) (v : option json) : bool :=
  match v with
  | Some (JStr s) => includes arr s
  | _ => false
  end.

(** [els.some((el) => el.type === 'name')] *)
Fixpoint some_type_is_name (els : list json) : result bool :=
  match els with
  | [] => Ok false
  | el :: rest =>
      t ← JS.member el "type";
      if strict_eq_string t "name" then Ok true else some_type_is_name rest
  end.

Definition not_callable (what : string) : js_error :=
  TypeError (what ++ " is not a function").
Definition undefined_read (p : string) : js_error :=
  TypeError ("Cannot read properties of undefined (reading '" ++ p ++ "')").

(** The properties an object literal inherits from [Object.prototype]:
    [o[k]] finds them when [o] has no property [k] of its own.  Each is a
    function or, for [__proto__], the prototype object. *)
Definition object_prototype_keys : list string :=
  ["constructor"; "hasOwnProperty"; "isPrototypeOf"; "propertyIsEnumerable";
   "toLocaleString"; "toString"; "valueOf"; "__proto__"; "__defineGetter__";
   "__defineSetter__"; "__lookupGetter__"; "__lookupSetter__"].

(** [o[k].name] for an inherited [k], as a template literal shows it: a
    function has its name, the prototype object has none. *)
Definition inherited_name (k : string) : string :=
  if bool_decide (k = "constructor") then "Object"
  else if bool_decide (k = "__proto__") then "undefined"
  else k.

(** What calling [includes] on [templates[key]] throws when the catalogue
    has no entry of its own under [key]: the read of a property of
    [undefined], or the call of a property the inherited value lacks. *)
Definition no_entry_error (key : string) : js_error :=
  if bool_decide (key ∈ object_prototype_keys) then
    not_callable "templates[json.request-language].includes"
  else undefined_read "includes".

Definition custom_template_props : list string :=
  ["custom-access-template"; "custom-erasure-template";
   "custom-rectification-template"; "custom-objection-template"].

(** The findings the rules push, in the order of the source. *)

Definition required_elements_ref : string :=
  "https://github.com/datenanfragen/data#required-elements".

Definition required_elements_error : TestEvent :=
  ev_msg_ref "Record has required elements but no 'name' element."
    required_elements_ref.

Definition template_language_error (prop value language : string) : TestEvent :=
  ev_msg ("Record specifies '" ++ prop ++ "' of '" ++ value
          ++ "' but that isn't available for 'request-language' of '"
          ++ language ++ "'.").

Definition template_english_error (prop value : string) : TestEvent :=
  ev_msg_ref ("Record specifies '" ++ prop ++ "' of '" ++ value
              ++ "' but that isn't available in English.")
    "https://github.com/datenanfragen/data/issues/1120".

Definition quality_error : TestEvent :=
  ev_msg_ref "Record has `quality` of `tested` but doesn't specify `required-elements`."
    "https://github.com/datenanfragen/data/issues/811".

Definition untrimmed_error (key : string) : TestEvent :=
  ev_msg ("Seems like `" ++ key
          ++ "` isn't trimmed, i.e. it contains leading or trailing whitespace.").

Definition trimmed_autofix (key : string) : TestEvent := ev_msg ("trimmed " ++ key).

Definition line_count_error : TestEvent :=
  ev_msg "`address` is not formatted with newlines (\n).".

Definition address_untrimmed_error : TestEvent :=
  ev_msg "`address` isn't trimmed (linewise), i.e. it contains unnecessary whitespace.".

Definition trimmed_address_autofix : TestEvent := ev_msg "trimmed address".

Definition name_in_address_error : TestEvent :=
  ev_msg "Record includes `name` in the `address`.".

Definition duplicate_name_autofix : TestEvent :=
  ev_msg "Removed duplicate name in first line of address".

Definition last_line_error (last_line : string) : TestEvent :=
  ev_msg ("Last line of `address` (" ++ last_line
          ++ ") should be a country. If you feel like this error is a mistake, please let us know! We get our list of countries from https://www.npmjs.com/package/countries-list. We've decided on specific variations for some countries: ("
          ++ String.concat ", " country_name_variations ++ ").").

Definition guessed_country_autofix (code : string) : TestEvent :=
  ev_msg ("guessed missing country: " ++ code).

Section Rules.

(** [autofix] is line 8; [templates] is the catalogue of lines 22-27, a
    language code mapped to the template names found for it; [countries]
    and [cities] are the tables of the two npm packages. *)
Variable autofix : bool.
Variable templates : gmap string (list string).
Variable countries : gmap string country.
Variable cities : list city.

(** Lines 111-118. *)
Definition check_required_elements (json : list (string * json))
    (st : checks_state) : result checks_state :=
  if JS.truthy (JS.get "required-elements" json) then
    match JS.get "required-elements" json with
    | Some (JArr els) =>
        has_name_field ← some_type_is_name els;
        if negb has_name_field then
          Ok (push_error required_elements_error st)
        else Ok st
    | _ => Throw (not_callable "json.required-elements.some")
    end
  else Ok st.

(** Lines 128-141, the body of the loop over the four properties. *)
Definition check_custom_template (json : list (string * json)) (prop : string)
    (st : checks_state) : result checks_state :=
  if JS.truthy (JS.get prop json) then
    if JS.truthy (JS.get "request-language" json) then
      key ← JS.ToString (JS.get "request-language" json);
      match templates !! key with
      | Some available =>
          if negb (includes_value available (JS.get prop json)) then
            value ← JS.ToString (JS.get prop json);
            language ← JS.ToString (JS.get "request-language" json);
            Ok (push_error (template_language_error prop value language) st)
          else Ok st
      | None => Throw (no_entry_error key)
      end
    else
      match templates !! "en" with
      | Some available =>
          if negb (includes_value available (JS.get prop json)) then
            value ← JS.ToString (JS.get prop json);
            Ok (push_error (template_english_error prop value) st)
          else Ok st
      | None => Throw (undefined_read "includes")
      end
  else Ok st.

(** Lines 145-151. *)
Definition check_quality (json : list (string * json)) (st : checks_state)
  : checks_state :=
  if strict_eq_string (JS.get "quality" json) "tested" then
    if negb (JS.truthy (JS.get "required-elements" json)) then
      push_error quality_error st
    else st
  else st.

(** Lines 154-162, the callback of the loop over [Object.keys(json)]. *)
Definition check_trimmed (json : list (string * json)) (st : checks_state)
    (key : string) : checks_state :=
  match JS.get key json with
  | Some (JStr s) =>
      if negb (bool_decide (s = trim s)) then
        let st := push_error (untrimmed_error key) st in
        if autofix then
          push_autofix (trimmed_autofix key) (set_af_json key (JStr (trim s)) st)
        else st
      else st
  | _ => st
  end.

(** Line 166. *)
Definition split_address (json : list (string * json)) : result (list string) :=
  match JS.get "address" json with
  | Some (JStr address) => Ok (split_LF address)
  | None => Throw (undefined_read "split")
  | Some JNull =>
      Throw (TypeError "Cannot read properties of null (reading 'split')")
  | Some _ => Throw (not_callable "json.address.split")
  end.

(** Line 167. *)
Definition check_line_count (address_lines : list string) (st : checks_state)
  : checks_state :=
  if bool_decide (List.length address_lines < 2) then
    push_error line_count_error st
  else st.

(** Lines 169-175. *)
Definition check_lines_trimmed (address_lines : list string) (st : checks_state)
  : checks_state :=
  if existsb (λ line, negb (bool_decide (line = trim line))) address_lines then
    let st := push_error address_untrimmed_error st in
    if autofix then
      push_autofix trimmed_address_autofix
        (set_af_json "address" (JStr (join_LF (map trim address_lines))) st)
    else st
  else st.

(** Line 177. *)
Definition check_name_in_address (json : list (string * json))
    (address_lines : list string) (st : checks_state) : checks_state :=
  if includes_value address_lines (JS.get "name" json) then
    push_error name_in_address_error st
  else st.

(** Lines 178-181. *)
Definition fix_name_in_first_line (json : list (string * json))
    (address_lines : list string) (st : checks_state) : result checks_state :=
  if autofix then
    match address_lines !! 0 with
    | Some first =>
        if strict_eq_string (JS.get "name" json) (trim first) then
          Ok (push_autofix duplicate_name_autofix
                (set_af_json "address" (JStr (join_LF (drop 1 address_lines))) st))
        else Ok st
    | None => Throw (undefined_read "trim")
    end
  else Ok st.

(** Lines 200-204: the country name appended for a gazetteer hit.  A
    code without entry in [countries] finds what the table inherits, if
    anything. *)
Definition guessed_country_name (code : string) : result string :=
  if includes variation_countrycodes code then
    match indexOf variation_countrycodes code with
    | Some i => JS.ToString (JStr <$> country_name_variations !! i)
    | None => JS.ToString None
    end
  else
    match countries !! code with
    | Some c => Ok (name c)
    | None =>
        if bool_decide (code ∈ object_prototype_keys) then Ok (inherited_name code)
        else Throw (undefined_read "name")
    end.

(** Lines 196-207. *)
Definition guess_country (last_line : string) (st : checks_state)
  : result checks_state :=
  match city_pattern_exec last_line with
  | Some city =>
      match List.find (λ x, bool_decide (city_name x = city)) cities with
      | Some guess =>
          country_name ← guessed_country_name (city_country guess);
          address ← JS.ToString (JS.get "address" (af_json st));
          Ok (push_autofix (guessed_country_autofix (city_country guess))
                (set_af_json "address" (JStr (address ++ NL ++ country_name)) st))
      | None => Ok st
      end
  | None => Throw (TypeError "Cannot read properties of null (reading '1')")
  end.

(** Lines 187-208. *)
Definition check_last_line (address_lines : list string) (st : checks_state)
  : result checks_state :=
  match last address_lines with
  | Some line =>
      let last_line := trim line in
      let last_line_is_country :=
        isLastLineCountry countries last_line country_name_variations in
      if negb last_line_is_country then
        let st := push_error (last_line_error last_line) st in
        if autofix then guess_country last_line st else Ok st
      else Ok st
  | None => Throw (undefined_read "trim")
  end.

(** Lines 105-208: the rules in the order of the source, on a record that
    is an object. *)
Definition run_rules (json : list (string * json)) : result checks_state :=
  let st := {| af_json := json; errors := []; autofixes := [] |} in
  st ← check_required_elements json st;
  st ← for_of custom_template_props (check_custom_template json) st;
  let st := check_quality json st in
  let st := foldl (check_trimmed json) st (JS.keys json) in
  address_lines ← split_address json;
  let st := check_line_count address_lines st in
  let st := check_lines_trimmed address_lines st in
  let st := check_name_in_address json address_lines st in
  st ← fix_name_in_first_line json address_lines st;
  check_last_line address_lines st.

(** Line 209. *)
Definition save_fixed (json : list (string * json)) (f : string)
    (st : checks_state) (d : disk) : disk :=
  if autofix && JS.strict_neq_fresh (JObj json) (JObj (af_json st)) then
    writeFileSync f (JSON_stringify_4 (JObj (af_json st)) ++ NL) d
  else d.

(** Lines 224-227. *)
Definition returnevents (st : checks_state) : list TestEvent :=
  map (with_type TAutofix) (autofixes st) ++ map (with_type TError) (errors st).

(** [additional_checks(json, f)].  A value that is no object has no
    [address]: [null] throws at its first property read on line 111, every
    other value at the [split] of line 166, and nothing is written or
    returned before. *)
Definition additional_checks (json : json) (f : string) (d : disk)
  : result (list TestEvent * disk) :=
  match json with
  | JObj props =>
      st ← run_rules props;
      Ok (returnevents st, save_fixed props f st d)
  | JNull =>
      Throw (TypeError "Cannot read properties of null (reading 'required-elements')")
  | _ => Throw (undefined_read "split")
  end.

End Rules.

(** ** The file walker, [validator], lines 54-88 *)

(** A compiled schema: [None] when the record validates, the content of
    [schema.errors] when it does not. *)
Definition schema_validator : Type := json → option (list string).

(** The type of [additional_checks] once [autofix] and the tables are
    fixed. *)
Definition checks : Type := json → string → disk → result (list TestEvent * disk).

(** [JSON.parse], an argument of the walker: the parsed value, or the
    exception thrown. *)
Definition json_parser : Type := string → result json.

Definition ev_error (m : string) (e : option error_object) : TestEvent :=
  {| type := Some TError; msg := m; ref := None; error := e |}.

(** Lines 61-64. *)
Definition add_event (f : string) (ev : TestEvent)
    (events : gmap string (list TestEvent)) : gmap string (list TestEvent) :=
  <[f := (default [] (events !! f) ++ [ev])%list]> events.

Definition newline_event : TestEvent :=
  ev_error "File doesn't end with exactly one newline." None.

Definition parse_failed_event (err : js_error) : TestEvent :=
  ev_error ("Parsing JSON failed." ++ NL) (Some (ParseError err)).

Definition schema_failed_event (errs : list string) : TestEvent :=
  ev_error ("Schema validation failed." ++ NL) (Some (SchemaErrors errs)).

Definition slug_event (f slug : string) : TestEvent :=
  ev_error ("Filename " ++ String DQ (basename f) ++ String DQ " does not match slug "
            ++ String DQ slug ++ String DQ ".") None.

(** Lines 67-68. *)
Definition check_trailing_newline (f file_content : string)
    (events : gmap string (list TestEvent)) : gmap string (list TestEvent) :=
  if negb (endsWith file_content ("}" ++ NL)) then add_event f newline_event events
  else events.

(** Lines 78-85, the checks on a parsed value.  The slug is converted
    for the comparison of line 79 and, with the same result, for the
    message of line 80. *)
Definition check_parsed (schema : schema_validator) (additional_checks : option checks)
    (f : string) (json : json) (events : gmap string (list TestEvent)) (d : disk)
  : result (gmap string (list TestEvent) * disk) :=
  let events :=
    match schema json with
    | Some errs => add_event f (schema_failed_event errs) events
    | None => events
    end in
  slug ← JS.member json "slug";
  slug ← JS.ToString slug;
  let events :=
    if negb (bool_decide (slug ++ ".json" = basename f))
    then add_event f (slug_event f slug) events
    else events in
  match additional_checks with
  | Some additional_checks =>
      '(tmp, d') ← additional_checks json f d;
      Ok (<[f := match events !! f with
                 | Some evs => (evs ++ tmp)%list
                 | None => tmp
                 end]> events, d')
  | None => Ok (events, d)
  end.

(** Lines 59-86, the callback of [files.forEach]. *)
Definition validate_file (parse : json_parser) (schema : schema_validator)
    (additional_checks : option checks)
    (f : string) (events : gmap string (list TestEvent)) (d : disk)
  : result (gmap string (list TestEvent) * disk) :=
  file_content ← readFileSync f d;
  let events := check_trailing_newline f file_content events in
  match parse file_content with
  | Throw err => Ok (add_event f (parse_failed_event err) events, d)
  | Ok json => check_parsed schema additional_checks f json events d
  end.

(** [files.forEach(...)]: an exception leaves the loop and the script; the
    disk it leaves behind is the one the last completed callback left,
    the callback writing, if at all, as its last step. *)
Fixpoint forEach_file (parse : json_parser) (schema : schema_validator)
    (additional_checks : option checks)
    (files : list string) (events : gmap string (list TestEvent)) (d : disk)
  : result (gmap string (list TestEvent)) * disk :=
  match files with
  | [] => (Ok events, d)
  | f :: rest =>
      match validate_file parse schema additional_checks f events d with
      | Ok (events', d') => forEach_file parse schema additional_checks rest events' d'
      | Throw e => (Throw e, d)
      end
  end.

(** [validator(dir, schema, additional_checks)], [files] being what
    [glob.sync] lists for the directory; the result is the map handed to
    [print]. *)
Definition validator (parse : json_parser) (files : list string)
    (schema : schema_validator) (additional_checks : option checks) (d : disk)
  : result (gmap string (list TestEvent)) * disk :=
  forEach_file parse schema additional_checks files ∅ d.

(** Lines 229-230: the companies with the rule engine, then the
    supervisory authorities without it. *)
Definition test_records (parse : json_parser) (autofix : bool)
    (templates : gmap string (list string))
    (countries : gmap string country) (cities : list city)
    (cdb_schema adb_schema : schema_validator)
    (companies supervisory_authorities : list string) (d : disk)
  : result (gmap string (list TestEvent) * gmap string (list TestEvent)) * disk :=
  match validator parse companies cdb_schema
          (Some (additional_checks autofix templates countries cities)) d with
  | (Ok events, d') =>
      match validator parse supervisory_authorities adb_schema None d' with
      | (Ok events', d'') => (Ok (events, events'), d'')
      | (Throw e, d'') => (Throw e, d'')
      end
  | (Throw e, d') => (Throw e, d')
  end.

(** ** The reporter, [print], lines 37-52 *)

(** What is left of a finding once [msg] is taken out: the [stuff] of
    line 45. *)
Record event_rest : Type := {
  rest_type : option event_type;
  rest_ref : option string;
  rest_error : option error_object
}.

(** A call of [console.error]: with a text, with a text and an object, or
    with a finding as a whole. *)
Inductive console_call : Type :=
| error_text (text : string)
| error_text_object (text : string) (stuff : event_rest)
| error_event (event : TestEvent).

Definition ESC : ascii := "027"%char.

(** The header of line 40, bold on red. *)
Definition print_header (file : string) : console_call :=
  error_text (String ESC "[1m" ++ String ESC "[41mError(s) in " ++ file ++ ":"
              ++ String ESC "[0m").

(** [Object.keys(event).length]: [msg] and the optional properties set. *)
Definition keys_length (event : TestEvent) : nat :=
  1 + List.length (option_list (type event))
  + List.length (option_list (ref event))
  + List.length (option_list (error event)).

(** Lines 42-49, the callback of [events[file].forEach]. *)
Definition print_event (event : TestEvent) : console_call :=
  if negb (bool_decide (msg event = "")) && bool_decide (keys_length event = 1)
  then error_text (msg event)
  else if negb (bool_decide (msg event = ""))
  then error_text_object (msg event)
         {| rest_type := type event; rest_ref := ref event;
            rest_error := error event |}
  else error_event event.

(** Lines 38-50, the body of the loop over the files of [events]. *)
Definition print_file (events : gmap string (list TestEvent)) (file : string)
  : list console_call :=
  match events !! file with
  | None | Some [] => []
  | Some found => print_header file :: map print_event found
  end.

(** [print(events)], the console calls in order.  [for (let file in
    events)] visits the keys in creation order; [order] is that order.
    For the map [validator] builds it is the order of the listing. *)
Definition print (order : list string) (events : gmap string (list TestEvent))
  : list console_call :=
  flat_map (print_file events) order.

(** The console output of a whole run, lines 229-230: each [validator]
    prints what it found before it returns, so the findings of the
    companies are on the console when the second call throws. *)
Definition test_records_output (parse : json_parser) (autofix : bool)
    (templates : gmap string (list string)) (countries : gmap string country)
    (cities : list city) (cdb_schema adb_schema : schema_validator)
    (companies supervisory_authorities : list string) (d : disk)
  : list console_call * option js_error :=
  match validator parse companies cdb_schema
          (Some (additional_checks autofix templates countries cities)) d with
  | (Ok events, d') =>
      let printed := print (remove_dups companies) events in
      match validator parse supervisory_authorities adb_schema None d' with
      | (Ok events', _) =>
          ((printed ++ print (remove_dups supervisory_authorities) events')%list, None)
      | (Throw e, _) => (printed, Some e)
      end
  | (Throw e, _) => ([], Some e)
  end.

(** ** The formats added to ajv, lines 11 and 14 *)

(** [(a) => true] *)
Definition text_format (a : string) : bool := true.

(** The pattern of [idn-email], [^\S+@\S+\.\S+$], read through the texts
    a part of it can leave over: [after_non_whitespace_plus s] lists what
    is left of [s] once [\S+] has matched at its start, one entry for each
    length the plus can take, and [after_char c s] what a literal [c]
    leaves.  The anchored pattern matches when its last part can leave
    the empty text. *)
Fixpoint after_non_whitespace_plus (s : string) : list string :=
  match s with
  | String c s' =>
      if is_whitespace c then [] else s' :: after_non_whitespace_plus s'
  | EmptyString => []
  end.

Definition after_char (c : ascii) (s : string) : list string :=
  match s with
  | String c' s' => if bool_decide (c' = c) then [s'] else []
  | EmptyString => []
  end.

(** [pattern.test(s)] *)
Definition idn_email (s : string) : bool :=
  let after_local := after_non_whitespace_plus s in
  let after_at := after_local ≫= after_char "@" in
  let after_domain := after_at ≫= after_non_whitespace_plus in
  let after_dot := after_domain ≫= after_char "." in
  bool_decide (EmptyString ∈ after_dot ≫= after_non_whitespace_plus).

(** ** The template catalogue, lines 22-27 *)

Fixpoint drop_chars (n : nat) (s : string) : string :=
  match n, s with
  | S n', String _ s' => drop_chars n' s'
  | _, _ => s
  end.

(** [s.replace(pattern, replacement)] for a text [pattern] and a
    [replacement] without dollar sign: the first occurrence is replaced
    and no other. *)
Fixpoint replace_first (pattern replacement s : string) : string :=
  if String.prefix pattern s
  then replacement ++ drop_chars (String.length pattern) s
  else match s with
       | String c s' => String c (replace_first pattern replacement s')
       | EmptyString => EmptyString
       end.

(** [s.split(sep)] for a separator of one character. *)
Fixpoint split_on (sep : ascii) (s : string) : list string :=
  match s with
  | EmptyString => [EmptyString]
  | String c s' =>
      if bool_decide (c = sep) then EmptyString :: split_on sep s'
      else match split_on sep s' with
           | h :: t => String c h :: t
           | [] => [String c EmptyString]
           end
  end.

(** Line 23, [const [lang, name] = cur.replace('.txt', '').split('/')]:
    the first two parts, [name] being [undefined] when there is one part
    only. *)
Definition template_entry (cur : string) : string * option string :=
  match split_on "/" (replace_first ".txt" "" cur) with
  | lang :: name :: _ => (lang, Some name)
  | [lang] => (lang, None)
  | [] => ("undefined", None)
  end.

(** Lines 24-26, the body of the reducer.  What [acc[lang]] inherits is
    truthy and has no [push]. *)
Definition add_template (cur : string) (acc : gmap string (list (option string)))
  : result (gmap string (list (option string))) :=
  match acc !! (template_entry cur).1 with
  | Some names =>
      Ok (<[(template_entry cur).1 := (names ++ [(template_entry cur).2])%list]> acc)
  | None =>
      if bool_decide ((template_entry cur).1 ∈ object_prototype_keys)
      then Throw (not_callable "acc[lang].push")
      else Ok (<[(template_entry cur).1 := [(template_entry cur).2]]> acc)
  end.

(** [paths.reduce(..., {})] for the listing [glob.sync] returns. *)
Definition build_templates (paths : list string)
  : result (gmap string (list (option string))) :=
  for_of paths add_template ∅.

(** ** Notions used to state the properties *)

Open Scope list_scope.

(** [st'] is [st] with findings appended, each of them satisfying [P]. *)
Definition adds (P : TestEvent → Prop) (st st' : checks_state) : Prop :=
  ∃ es afs,
    errors st' = errors st ++ es ∧ autofixes st' = autofixes st ++ afs
    ∧ Forall P es ∧ Forall P afs.

(** The rules of [additional_checks], and the findings each may push. *)
Inductive rule : Type :=
| RequiredElements
| CustomTemplate (prop : string)
| Quality
| Trimmed
| LineCount
| LinesTrimmed
| NameInAddress
| DuplicateName
| LastLine.

Inductive finding_of : rule → TestEvent → Prop :=
| finding_required_elements : finding_of RequiredElements required_elements_error
| finding_template_language prop value language :
    finding_of (CustomTemplate prop) (template_language_error prop value language)
| finding_template_english prop value :
    finding_of (CustomTemplate prop) (template_english_error prop value)
| finding_quality : finding_of Quality quality_error
| finding_untrimmed key : finding_of Trimmed (untrimmed_error key)
| finding_trimmed key : finding_of Trimmed (trimmed_autofix key)
| finding_line_count : finding_of LineCount line_count_error
| finding_address_untrimmed : finding_of LinesTrimmed address_untrimmed_error
| finding_trimmed_address : finding_of LinesTrimmed trimmed_address_autofix
| finding_name_in_address : finding_of NameInAddress name_in_address_error
| finding_duplicate_name : finding_of DuplicateName duplicate_name_autofix
| finding_last_line last_line : finding_of LastLine (last_line_error last_line)
| finding_guessed_country code : finding_of LastLine (guessed_country_autofix code).

(** A finding of some rule other than [r]. *)
Definition finding_of_other (r : rule) (e : TestEvent) : Prop :=
  ∃ r', r' ≠ r ∧ finding_of r' e.


(** The text a value converts to, the empty text standing in when the
    conversion throws. *)
Definition text_of (v : option json) : string :=
  match JS.ToString v with
  | Ok s => s
  | Throw _ => ""
  end.

(** The language a custom template is looked up under: line 129. *)
Definition effective_language (json : list (string * json)) : string :=
  if JS.truthy (JS.get "request-language" json)
  then text_of (JS.get "request-language" json)
  else "en".

(** [el.type === 'name'] for an element that is not [null]. *)
Definition type_is_name (el : json) : bool :=
  match el with
  | JObj props => strict_eq_string (JS.get "type" props) "name"
  | _ => false
  end.


(** The findings of one kind. *)
Definition of_type (t : event_type) (evs : list TestEvent) : list TestEvent :=
  filter (λ e, type e = Some t) evs.

(** The last address line as line 187 computes it. *)
Definition last_line_of (address : string) : string :=
  trim (default "" (last (split_LF address))).

(** The country matcher as the specification words it: the official or the
    native name of a country whose code is not excluded, or a variation. *)
Definition spec_isCountryLine (countries : gmap string country) (text : string)
    (variations : list string) : Prop :=
  (∃ code v, countries !! code = Some v ∧ (code ∉ variation_countrycodes)
             ∧ (name v = text ∨ native v = text))
  ∨ text ∈ variations.

(** A rule engine that leaves the disk alone, or none at all. *)
Definition read_only (additional_checks : option checks) : Prop :=
  ∀ c, additional_checks = Some c →
       ∀ json f d evs d', c json f d = Ok (evs, d') → d' = d.

(** The finding of lines 67-68, if any. *)
Definition newline_findings (file_content : string) : list TestEvent :=
  if endsWith file_content ("}" ++ NL)%string then [] else [newline_event].

(** The error findings of the rules, rule by rule, as functions of the
    record and the tables. *)

Definition required_elements_errors (json : list (string * json)) : list TestEvent :=
  match JS.get "required-elements" json with
  | Some (JArr els) =>
      if existsb type_is_name els then [] else [required_elements_error]
  | _ => []
  end.

Definition template_error (json : list (string * json)) (prop : string) : TestEvent :=
  if JS.truthy (JS.get "request-language" json)
  then template_language_error prop (text_of (JS.get prop json))
         (text_of (JS.get "request-language" json))
  else template_english_error prop (text_of (JS.get prop json)).

Definition template_errors_of (templates : gmap string (list string))
    (json : list (string * json)) (prop : string) : list TestEvent :=
  if JS.truthy (JS.get prop json)
     && negb (includes_value (default [] (templates !! effective_language json))
                (JS.get prop json))
  then [template_error json prop]
  else [].

Definition template_errors (templates : gmap string (list string))
    (json : list (string * json)) : list TestEvent :=
  flat_map (template_errors_of templates json) custom_template_props.

Definition quality_errors (json : list (string * json)) : list TestEvent :=
  if strict_eq_string (JS.get "quality" json) "tested"
     && negb (JS.truthy (JS.get "required-elements" json))
  then [quality_error]
  else [].

(** The value of [key] is a string with leading or trailing whitespace. *)
Definition untrimmed (json : list (string * json)) (key : string) : bool :=
  match JS.get key json with
  | Some (JStr s) => negb (bool_decide (s = trim s))
  | _ => false
  end.

Definition trim_errors (json : list (string * json)) : list TestEvent :=
  map untrimmed_error (List.filter (untrimmed json) (JS.keys json)).

Definition line_count_errors (address_lines : list string) : list TestEvent :=
  if bool_decide (List.length address_lines < 2) then [line_count_error] else [].

Definition lines_trimmed_errors (address_lines : list string) : list TestEvent :=
  if existsb (λ line, negb (bool_decide (line = trim line))) address_lines
  then [address_untrimmed_error]
  else [].

Definition name_in_address_errors (json : list (string * json))
    (address_lines : list string) : list TestEvent :=
  if includes_value address_lines (JS.get "name" json) then [name_in_address_error]
  else [].

Definition last_line_errors (countries : gmap string country) (address : string)
  : list TestEvent :=
  if isLastLineCountry countries (last_line_of address) country_name_variations
  then []
  else [last_line_error (last_line_of address)].

Definition expected_errors (templates : gmap string (list string))
    (countries : gmap string country) (json : list (string * json))
    (address : string) : list TestEvent :=
  required_elements_errors json ++ template_errors templates json
  ++ quality_errors json ++ trim_errors json
  ++ line_count_errors (split_LF address) ++ lines_trimmed_errors (split_LF address)
  ++ name_in_address_errors json (split_LF address)
  ++ last_line_errors countries address.

(** The value auto-fix gives a field other than [address]. *)
Definition trimmed_value (v : option json) : option json :=
  match v with
  | Some (JStr s) => Some (JStr (trim s))
  | _ => v
  end.

(** The error findings of one rule, and the order in which the rules run. *)
Definition rule_errors (templates : gmap string (list string))
    (countries : gmap string country) (json : list (string * json))
    (address : string) (r : rule) : list TestEvent :=
  match r with
  | RequiredElements => required_elements_errors json
  | CustomTemplate prop => template_errors_of templates json prop
  | Quality => quality_errors json
  | Trimmed => trim_errors json
  | LineCount => line_count_errors (split_LF address)
  | LinesTrimmed => lines_trimmed_errors (split_LF address)
  | NameInAddress => name_in_address_errors json (split_LF address)
  | DuplicateName => []
  | LastLine => last_line_errors countries address
  end.

Definition rule_order : list rule :=
  RequiredElements :: map CustomTemplate custom_template_props
  ++ [Quality; Trimmed; LineCount; LinesTrimmed; NameInAddress; DuplicateName;
      LastLine].

(** The address of the fixed copy before a country is appended: the
    duplicate-name fix wins over the linewise trim, and that over the trim
    of the whole field. *)
Definition fixed_address_base (json : list (string * json)) (address : string)
  : string :=
  let address_lines := split_LF address in
  if strict_eq_string (JS.get "name" json) (trim (default "" (head address_lines)))
  then join_LF (drop 1 address_lines)
  else if existsb (λ line, negb (bool_decide (line = trim line))) address_lines
       then join_LF (map trim address_lines)
       else trim address.

(** [st'] differs from [st] in no field of the fixed copy but [address],
    and has the keys of [json] if [st] has them. *)
Definition address_frame (json : list (string * json)) (st st' : checks_state)
  : Prop :=
  (JS.keys (af_json st) = JS.keys json → JS.keys (af_json st') = JS.keys json)
  ∧ ∀ key, key ≠ "address" → JS.get key (af_json st') = JS.get key (af_json st).

(** The findings of lines 78-81 for a parsed value with slug [slug]. *)
Definition schema_findings (schema : schema_validator) (json : json)
  : list TestEvent :=
  match schema json with
  | Some errs => [schema_failed_event errs]
  | None => []
  end.

Definition slug_findings (f slug : string) : list TestEvent :=
  if bool_decide ((slug ++ ".json")%string = basename f) then []
  else [slug_event f slug].

(** A finding that [print] shows as a text with an object: it has a
    message and at least one more property. *)
Definition printable (e : TestEvent) : Prop :=
  msg e ≠ "" ∧ type e = Some TError ∨ msg e ≠ "" ∧ type e = Some TAutofix.

(** A rule engine that writes, if at all, the serialisation of an object
    to the file it was called for. *)
Definition writes_own_file (c : checks) : Prop :=
  ∀ json f d evs d',
    c json f d = Ok (evs, d') →
    d' = d
    ∨ ∃ fixed, d' = writeFileSync f (JSON_stringify_4 (JObj fixed) ++ NL)%string d.

(** A rule engine, if any, that returns printable findings only. *)
Definition returns_printable (additional_checks : option checks) : Prop :=
  ∀ c, additional_checks = Some c →
       ∀ json f d evs d', c json f d = Ok (evs, d') → Forall printable evs.

(** A console call [print] makes for findings with a message and a type:
    a header, or a message with the rest of the finding. *)
Definition header_or_message (call : console_call) : Prop :=
  (∃ file, call = print_header file)
  ∨ ∃ text stuff, call = error_text_object text stuff ∧ text ≠ ""
                  ∧ is_Some (rest_type stuff).

(** A text without whitespace. *)
Definition no_whitespace (s : string) : Prop :=
  Forall (λ c, is_whitespace c = false) (list_ascii_of_string s).

(** A text in which the character [c] does not occur. *)
Definition free_of (c : ascii) (s : string) : Prop := c ∉ list_ascii_of_string s.

(** The names of the paths filed under [lang], in the order of the
    listing. *)
Definition names_of (lang : string) (paths : list string) : list (option string) :=
  map snd (filter (λ e, e.1 = lang) (map template_entry paths)).

(** The key the catalogue is read with, lines 130 and 135. *)
Definition catalogue_key (json : list (string * json)) : result string :=
  if JS.truthy (JS.get "request-language" json)
  then JS.ToString (JS.get "request-language" json)
  else Ok "en".

(** The value of [prop] is a string, and an element of [available]. *)
Definition names_template_of (available : list string)
    (json : list (string * json)) (prop : string) : Prop :=
  ∃ s, JS.get prop json = Some (JStr s) ∧ s ∈ available.

(** The custom-template rule can evaluate [prop]: when [prop] is truthy,
    the language gives a key, the catalogue has an entry for that key,
    and the value is in the entry or can be put into the message. *)
Definition template_evaluable (templates : gmap string (list string))
    (json : list (string * json)) (prop : string) : Prop :=
  JS.truthy (JS.get prop json) = true →
  ∃ key available,
    catalogue_key json = Ok key
    ∧ templates !! key = Some available
    ∧ (names_template_of available json prop
       ∨ ∃ value, JS.ToString (JS.get prop json) = Ok value).





(** ** Example data *)

(** Four entries of [countries-list] and one of [all-the-cities]. *)
Definition countries_excerpt : gmap string country :=
  {[ "DE" := {| name := "Germany"; native := "Deutschland" |};
     "US" := {| name := "United States"; native := "United States" |};
     "NL" := {| name := "Netherlands"; native := "Nederland" |};
     "SG" := {| name := "Singapore"; native := "Singapore" |} ]}.

Definition cities_excerpt : list city :=
  [ {| city_name := "Berlin"; city_country := "DE" |} ].

Definition templates_example : gmap string (list string) :=
  {[ "en" := ["access-default"; "erasure-default"];
     "de" := ["access-default"] ]}.

(** A schema that accepts every record. *)
Definition any_schema : schema_validator := λ _, None.

Definition acme_json : string := "companies/acme.json".

Definition disk_with (f text : string) : disk :=
  {| contents := {[ f := text ]}; writes := [] |}.

(** The record of the two end-to-end scenarios. *)
Definition scenario_record : json :=
  JObj [("slug", JStr "acme"); ("name", JStr "Acme");
        ("address", JStr ("Acme" ++ NL ++ "Musterstr. 1" ++ NL ++ "Berlin")%string);
        ("required-elements", JArr [JObj [("type", JStr "email")]]);
        ("quality", JStr "tested")].

Definition scenario_text : string :=
  (dq "{'slug':'acme','name':'Acme','address':'Acme\nMusterstr. 1\nBerlin','required-elements':[{'type':'email'}],'quality':'tested'}"
   ++ NL)%string.

(** The same record with a postal code before the city. *)
Definition scenario_record_postcode : list (string * json) :=
  [("slug", JStr "acme"); ("name", JStr "Acme");
   ("address", JStr ("Acme" ++ NL ++ "Musterstr. 1" ++ NL ++ "10115 Berlin")%string);
   ("required-elements", JArr [JObj [("type", JStr "email")]]);
   ("quality", JStr "tested")].

(** A record no rule objects to, and its file written on one line. *)
Definition clean_record : list (string * json) :=
  [("slug", JStr "acme"); ("name", JStr "Acme");
   ("address", JStr ("Musterstr. 1" ++ NL ++ "Germany")%string)].

Definition clean_text : string :=
  (dq "{'slug':'acme','name':'Acme','address':'Musterstr. 1\nGermany'}" ++ NL)%string.





Definition record_custom_template : list (string * json) :=
  [("slug", JStr "acme"); ("name", JStr "Acme");
   ("address", JStr ("Musterstr. 1" ++ NL ++ "Germany")%string);
   ("custom-access-template", JStr "access-acme")].

(** The [address] of the record a file holds. *)
Definition address_on_disk (f : string) (d : disk) : option json :=
  text ← contents d !! f;
  match JSON_parse text with
  | Ok (JObj props) => JS.get "address" props
  | _ => None
  end.

(** The auto-fix run of the script over one company file. *)
Definition autofix_pass (f : string) (d : disk) : disk :=
  (test_records JSON_parse true templates_example countries_excerpt cities_excerpt
     any_schema any_schema [f] [] d).2.

(** A record marked as tested without [required-elements], and one with
    whitespace around a field and at the end of an address line. *)
Definition record_tested : list (string * json) :=
  [("slug", JStr "acme"); ("name", JStr "Acme");
   ("address", JStr ("Musterstr. 1" ++ NL ++ "Germany")%string);
   ("quality", JStr "tested")].

Definition record_untrimmed : list (string * json) :=
  [("slug", JStr "acme"); ("name", JStr " Acme ");
   ("address", JStr ("Musterstr. 1 " ++ NL ++ "Germany")%string);
   ("web", JStr "https://acme.example ")].

(** A record whose custom template is present and empty, and one whose
    custom template is an object that hides [toString]. *)
Definition record_empty_template : list (string * json) :=
  [("slug", JStr "acme"); ("name", JStr "Acme");
   ("address", JStr ("Musterstr. 1" ++ NL ++ "Germany")%string);
   ("custom-access-template", JStr "")].

Definition record_object_template : list (string * json) :=
  [("slug", JStr "acme"); ("name", JStr "Acme");
   ("address", JStr ("Musterstr. 1" ++ NL ++ "Germany")%string);
   ("custom-access-template", JObj [("toString", JNum 1)])].

(** * Properties *)

(** ** The model on small inputs *)

Example trim_strips_both_ends :
  trim (String "009" "  Acme GmbH " ++ NL) = "Acme GmbH".
Proof. reflexivity. Qed.

Example split_LF_keeps_empty_lines :
  split_LF "" = [""] ∧ split_LF ("a" ++ NL) = ["a"; ""]
  ∧ split_LF ("a" ++ NL ++ NL ++ "b") = ["a"; ""; "b"].
Proof. repeat split; reflexivity. Qed.

Example city_pattern_on_sample_lines :
  city_pattern_exec "10115 Berlin" = Some "Berlin"
  ∧ city_pattern_exec "New York" = Some "York"
  ∧ city_pattern_exec "12 34 Bad Homburg" = Some "Bad Homburg"
  ∧ city_pattern_exec "Berlin" = None.
Proof. repeat split; reflexivity. Qed.

Example basename_of_record_path : basename "companies/acme.json" = "acme.json".
Proof. reflexivity. Qed.

Example stringify_then_parse_scenario_record :
  JSON_parse (JSON_stringify_4 scenario_record ++ NL) = Ok scenario_record.
Proof. by vm_compute. Qed.

Example parse_rejects_malformed_text :
  JSON_parse "{" = Throw (SyntaxError "Unexpected token in JSON")
  ∧ JSON_parse (dq "{'a':01}") = Throw (SyntaxError "Unexpected token in JSON")
  ∧ JSON_parse "{}}"
    = Throw (SyntaxError "Unexpected non-whitespace character after JSON").
Proof. repeat split; by vm_compute. Qed.

(** Scenario A: in report-only mode the scenario record gets three errors,
    for the missing [name] element, the name in the address and the last
    line that is no country, and the disk stays as it was. *)
Lemma scenario_A_three_findings :
  test_records JSON_parse false templates_example countries_excerpt cities_excerpt
    any_schema any_schema [acme_json] [] (disk_with acme_json scenario_text)
  = (Ok ({[ acme_json := [with_type TError required_elements_error;
                          with_type TError name_in_address_error;
                          with_type TError (last_line_error "Berlin")] ]}, ∅),
     disk_with acme_json scenario_text).
Proof. by vm_compute. Qed.

(** ** The country matcher *)

Lemma includes_true (arr : list string) (x : string) :
  includes arr x = true ↔ x ∈ arr.
Proof. unfold includes. apply bool_decide_eq_true. Qed.

Lemma includes_false (arr : list string) (x : string) :
  includes arr x = false ↔ x ∉ arr.
Proof. unfold includes. apply bool_decide_eq_false. Qed.

(** C6 (as the code has it).  [isLastLineCountry] accepts a line exactly
    when it is the native name of some listed country, excluded or not, or
    the official name of a listed country whose code is not one of [US],
    [NL], [SG], or one of the variations handed in; the comparison is
    equality of strings. *)
Theorem isLastLineCountry_iff (countries : gmap string country)
    (last_line : string) (variations : list string) :
  isLastLineCountry countries last_line variations = true ↔
  (∃ code v, countries !! code = Some v
             ∧ (((code ∉ variation_countrycodes) ∧ name v = last_line)
                ∨ native v = last_line))
  ∨ last_line ∈ variations.
Proof.
  unfold isLastLineCountry.
  rewrite orb_true_iff, includes_true, existsb_exists.
  apply or_iff_compat_r. split.
  - intros [[code v] [Hin Hb]].
    apply list_elem_of_In, elem_of_map_to_list in Hin.
    exists code, v. split; [done|].
    apply orb_true_iff in Hb as [Hb | Hb].
    + apply andb_true_iff in Hb as [Hex Hname].
      apply negb_true_iff, includes_false in Hex.
      apply bool_decide_eq_true in Hname. by left.
    + apply bool_decide_eq_true in Hb. by right.
  - intros (code & v & Hlook & Hcase).
    exists (code, v). split.
    + by apply list_elem_of_In, elem_of_map_to_list.
    + apply orb_true_iff. destruct Hcase as [[Hex Hname] | Hnative].
      * left. apply andb_true_iff. split.
        -- by apply negb_true_iff, includes_false.
        -- by apply bool_decide_eq_true.
      * right. by apply bool_decide_eq_true.
Qed.

(** C6, counterexample.  [Nederland] is the native name of the excluded
    [NL]: the code accepts it, the matcher of the specification does
    not. *)
Lemma isLastLineCountry_accepts_native_of_excluded :
  isLastLineCountry countries_excerpt "Nederland" country_name_variations = true
  ∧ ¬ spec_isCountryLine countries_excerpt "Nederland" country_name_variations.
Proof.
  split; [by vm_compute|].
  intros [(code & v & Hlook & Hex & Hname) | Hvar].
  - apply elem_of_map_to_list in Hlook.
    let l := eval vm_compute in (map_to_list countries_excerpt) in
    assert (Hl : map_to_list countries_excerpt = l) by (vm_compute; reflexivity).
    rewrite Hl in Hlook. clear Hl.
    repeat (apply elem_of_cons in Hlook as [Hlook | Hlook];
            [injection Hlook as Hc Hv; subst code v; simpl in Hname |]).
    all: try (destruct Hname; discriminate).
    + apply Hex. by apply (bool_decide_unpack _).
    + by apply elem_of_nil in Hlook.
  - unfold country_name_variations in Hvar.
    repeat (apply elem_of_cons in Hvar as [Hvar | Hvar]; [discriminate|]).
    by apply elem_of_nil in Hvar.
Qed.

(** ** Report-only mode and the disk *)

Lemma save_fixed_report_only (json : list (string * json)) (f : string)
    (st : checks_state) (d : disk) :
  save_fixed false json f st d = d.
Proof. reflexivity. Qed.

Lemma additional_checks_report_only templates countries cities json f d evs d' :
  additional_checks false templates countries cities json f d = Ok (evs, d') →
  d' = d.
Proof.
  unfold additional_checks. destruct json; try discriminate.
  destruct (run_rules _ _ _ _ props) as [st|e]; simpl; [|discriminate].
  intros [= _ <-]. apply save_fixed_report_only.
Qed.

Lemma validate_file_read_only (parse : json_parser) schema additional_checks f
    events d events' d' :
  read_only additional_checks →
  validate_file parse schema additional_checks f events d = Ok (events', d') →
  d' = d.
Proof.
  intros Hro. unfold validate_file.
  destruct (readFileSync f d) as [text|e]; simpl; [|discriminate].
  destruct (parse text) as [json|err]; [|by intros [= _ <-]].
  unfold check_parsed.
  destruct (JS.member json "slug") as [slug|e]; simpl; [|discriminate].
  destruct (JS.ToString slug) as [slug_text|e]; simpl; [|discriminate].
  destruct additional_checks as [c|]; [|by intros [= _ <-]].
  destruct (c json f d) as [[tmp d1]|e] eqn:Hc; simpl; [|discriminate].
  intros [= _ <-]. by eapply Hro.
Qed.

Lemma forEach_file_read_only (parse : json_parser) schema additional_checks files
    events d :
  read_only additional_checks →
  (forEach_file parse schema additional_checks files events d).2 = d.
Proof.
  intros Hro. revert events d.
  induction files as [|f rest IH]; intros events d; simpl; [done|].
  destruct (validate_file parse schema additional_checks f events d)
    as [[events' d']|e] eqn:Hv; [|done].
  apply validate_file_read_only in Hv as ->; [|done]. apply IH.
Qed.

(** C9.  Without [--auto-fix] the script never calls [writeFileSync]:
    whatever the two directories hold and however the run ends, the disk
    it leaves, contents and write log, is the disk it found. *)
Theorem report_only_never_writes (parse : json_parser)
    (templates : gmap string (list string))
    (countries : gmap string country) (cities : list city)
    (cdb_schema adb_schema : schema_validator)
    (companies supervisory_authorities : list string) (d : disk) :
  (test_records parse false templates countries cities cdb_schema adb_schema
     companies supervisory_authorities d).2 = d.
Proof.
  unfold test_records, validator.
  assert (H1 : read_only (Some (additional_checks false templates countries cities))).
  { intros c [= <-] json f d0 evs d'. apply additional_checks_report_only. }
  assert (H2 : read_only None) by (intros c [=]).
  pose proof (forEach_file_read_only parse cdb_schema _ companies ∅ d H1) as E1.
  destruct (forEach_file parse cdb_schema _ companies ∅ d) as [[events|e] d1];
    simpl in E1; subst d1; [|done].
  pose proof (forEach_file_read_only parse adb_schema _ supervisory_authorities ∅ d
                H2)
    as E2.
  by destruct (forEach_file parse adb_schema None supervisory_authorities ∅ d)
    as [[events'|e] d2]; simpl in E2; subst d2.
Qed.

(** ** How the rules extend the state *)

Lemma bind_Ok {A B : Type} (m : result A) (k : A → result B) (b : B) :
  m ≫= k = Ok b → ∃ a, m = Ok a ∧ k a = Ok b.
Proof. destruct m as [a|e]; [|done]. intros H. by exists a. Qed.

Lemma bind_Throw {A B : Type} (m : result A) (k : A → result B) (e : js_error) :
  m ≫= k = Throw e → m = Throw e ∨ ∃ a, m = Ok a ∧ k a = Throw e.
Proof. destruct m as [a|e']; [right; by exists a|left; by simplify_eq/=]. Qed.

(** What the country guess leaves when it returns. *)
Lemma guess_country_Ok countries cities last_line st st' :
  guess_country countries cities last_line st = Ok st' →
  st' = st
  ∨ ∃ code cn address,
      guessed_country_name countries code = Ok cn
      ∧ JS.ToString (JS.get "address" (af_json st)) = Ok address
      ∧ st' = push_autofix (guessed_country_autofix code)
                (set_af_json "address" (JStr (address ++ NL ++ cn)%string) st).
Proof.
  unfold guess_country. destruct (city_pattern_exec last_line); [|done].
  destruct (find _ cities) as [guess|]; [|intros [= <-]; by left].
  intros (cn & Hcn & (address & Ha & [= <-])%bind_Ok)%bind_Ok.
  right. by eexists _, _, _.
Qed.

(** ** The custom-template rule, case by case *)

Lemma text_of_Ok v s : JS.ToString v = Ok s → text_of v = s.
Proof. unfold text_of. by intros ->. Qed.

Lemma catalogue_key_language json key :
  catalogue_key json = Ok key → effective_language json = key.
Proof.
  unfold catalogue_key, effective_language.
  destruct (JS.truthy _); [apply text_of_Ok|by intros [= <-]].
Qed.

Lemma includes_value_true available json prop :
  includes_value available (JS.get prop json) = true
  ↔ names_template_of available json prop.
Proof.
  unfold includes_value, names_template_of, includes. split.
  - destruct (JS.get prop json) as [[| | |s| |]|]; try done.
    intros H%bool_decide_eq_true. by exists s.
  - intros (s & -> & Hin). by apply bool_decide_eq_true.
Qed.

Lemma template_error_finding json prop :
  finding_of (CustomTemplate prop) (template_error json prop).
Proof. unfold template_error. case_match; constructor. Qed.

Lemma check_custom_template_eq templates json prop st :
  check_custom_template templates json prop st
  = if JS.truthy (JS.get prop json) then
      key ← catalogue_key json;
      match templates !! key with
      | Some available =>
          if includes_value available (JS.get prop json) then Ok st
          else
            value ← JS.ToString (JS.get prop json);
            Ok (push_error (template_error json prop) st)
      | None => Throw (no_entry_error key)
      end
    else Ok st.
Proof.
  unfold check_custom_template, catalogue_key, template_error, text_of.
  destruct (JS.truthy (JS.get prop json)); [|done].
  destruct (JS.truthy (JS.get "request-language" json)).
  - destruct (JS.ToString (JS.get "request-language" json)) as [key|e]; [|done].
    cbn [mbind result_bind].
    destruct (templates !! key) as [available|]; [|done].
    destruct (includes_value available (JS.get prop json)); [done|].
    cbn [negb]. by destruct (JS.ToString (JS.get prop json)).
  - cbn [mbind result_bind].
    destruct (templates !! "en") as [available|]; [|done].
    destruct (includes_value available (JS.get prop json)); [done|].
    cbn [negb]. by destruct (JS.ToString (JS.get prop json)).
Qed.

(** What the rule leaves when it returns: the state it got, or that
    state with the error of the property. *)
Lemma check_custom_template_Ok templates json prop st st' :
  check_custom_template templates json prop st = Ok st' →
  st' = st ∧ template_errors_of templates json prop = []
  ∨ st' = push_error (template_error json prop) st
    ∧ template_errors_of templates json prop = [template_error json prop].
Proof.
  rewrite check_custom_template_eq. unfold template_errors_of.
  destruct (JS.truthy (JS.get prop json)); [|intros [= <-]; by left].
  intros (key & Hkey & H)%bind_Ok.
  rewrite (catalogue_key_language _ _ Hkey).
  destruct (templates !! key) as [available|]; [|done]. simpl.
  destruct (includes_value available (JS.get prop json)); simpl.
  - injection H as <-. by left.
  - apply bind_Ok in H as (value & _ & [= <-]). by right.
Qed.

(** When the rule returns, and it does so whatever the state. *)
Lemma check_custom_template_returns templates json prop st :
  (∃ st', check_custom_template templates json prop st = Ok st')
  ↔ template_evaluable templates json prop.
Proof.
  rewrite check_custom_template_eq. unfold template_evaluable.
  destruct (JS.truthy (JS.get prop json)); [|split; [done|by eexists]].
  split.
  - intros [st' (key & Hkey & H)%bind_Ok] _.
    destruct (templates !! key) as [available|] eqn:Hav; [|done].
    exists key, available. split; [done|]. split; [done|].
    destruct (includes_value available (JS.get prop json)) eqn:Hinc.
    + left. by apply includes_value_true.
    + right. apply bind_Ok in H as (value & Hvalue & _). by exists value.
  - intros H. destruct (H eq_refl) as (key & available & -> & Hav & Hvalue).
    cbn [mbind result_bind]. rewrite Hav.
    destruct (includes_value available (JS.get prop json)) eqn:Hinc; [by eexists|].
    destruct Hvalue as [Hin|[value ->]]; [|by eexists].
    apply includes_value_true in Hin. congruence.
Qed.


Lemma adds_refl P st : adds P st st.
Proof. exists [], []. by rewrite !app_nil_r. Qed.

Lemma adds_trans P st1 st2 st3 : adds P st1 st2 → adds P st2 st3 → adds P st1 st3.
Proof.
  intros (es & afs & He & Ha & HPe & HPa) (es' & afs' & He' & Ha' & HPe' & HPa').
  exists (es ++ es'), (afs ++ afs').
  rewrite He', He, Ha', Ha, <- !app_assoc.
  repeat split; by try apply Forall_app.
Qed.

Lemma adds_mono (P Q : TestEvent → Prop) st st' :
  (∀ e, P e → Q e) → adds P st st' → adds Q st st'.
Proof.
  intros HPQ (es & afs & He & Ha & HPe & HPa). exists es, afs.
  repeat split; try done; eapply Forall_impl; eauto.
Qed.

Lemma adds_push_error P st st' e : adds P st st' → P e → adds P st (push_error e st').
Proof.
  intros H HP. eapply adds_trans; [exact H|].
  exists [e], []. simpl. rewrite app_nil_r. repeat split; by repeat constructor.
Qed.

Lemma adds_push_autofix P st st' e :
  adds P st st' → P e → adds P st (push_autofix e st').
Proof.
  intros H HP. eapply adds_trans; [exact H|].
  exists [], [e]. simpl. rewrite app_nil_r. repeat split; by repeat constructor.
Qed.

Lemma adds_set_af_json P st st' key v :
  adds P st st' → adds P st (set_af_json key v st').
Proof. intros (es & afs & H). by exists es, afs. Qed.

Ltac adds_steps :=
  repeat first
    [ apply adds_refl
    | apply adds_set_af_json
    | apply adds_push_error; [|by constructor]
    | apply adds_push_autofix; [|by constructor] ].

Section RuleSteps.

Variable autofix : bool.
Variable templates : gmap string (list string).
Variable countries : gmap string country.
Variable cities : list city.

Lemma check_required_elements_adds json st st' :
  check_required_elements json st = Ok st' → adds (finding_of RequiredElements) st st'.
Proof.
  unfold check_required_elements. intros H.
  repeat case_match; simplify_eq; try done; adds_steps.
  destruct (some_type_is_name _); simpl in H; [|done].
  case_match; simplify_eq; adds_steps.
Qed.

Lemma check_custom_template_adds json prop st st' :
  check_custom_template templates json prop st = Ok st' →
  adds (finding_of (CustomTemplate prop)) st st'.
Proof.
  intros [[-> _]|[-> _]]%check_custom_template_Ok; [apply adds_refl|].
  apply adds_push_error; [apply adds_refl|apply template_error_finding].
Qed.

Lemma check_quality_adds json st : adds (finding_of Quality) st (check_quality json st).
Proof. unfold check_quality. repeat case_match; adds_steps. Qed.

Lemma check_trimmed_adds json st key :
  adds (finding_of Trimmed) st (check_trimmed autofix json st key).
Proof. unfold check_trimmed. repeat case_match; adds_steps. Qed.

Lemma check_all_trimmed_adds json keys st :
  adds (finding_of Trimmed) st (foldl (check_trimmed autofix json) st keys).
Proof.
  revert st. induction keys as [|key keys IH]; intros st; simpl; [apply adds_refl|].
  eapply adds_trans; [apply check_trimmed_adds|apply IH].
Qed.

Lemma check_line_count_adds lines st :
  adds (finding_of LineCount) st (check_line_count lines st).
Proof. unfold check_line_count. repeat case_match; adds_steps. Qed.

Lemma check_lines_trimmed_adds lines st :
  adds (finding_of LinesTrimmed) st (check_lines_trimmed autofix lines st).
Proof. unfold check_lines_trimmed. repeat case_match; adds_steps. Qed.

Lemma check_name_in_address_adds json lines st :
  adds (finding_of NameInAddress) st (check_name_in_address json lines st).
Proof. unfold check_name_in_address. repeat case_match; adds_steps. Qed.

Lemma fix_name_in_first_line_adds json lines st st' :
  fix_name_in_first_line autofix json lines st = Ok st' →
  adds (finding_of DuplicateName) st st'.
Proof.
  unfold fix_name_in_first_line. intros H.
  repeat case_match; simplify_eq; adds_steps.
Qed.

Lemma check_last_line_adds lines st st' :
  check_last_line autofix countries cities lines st = Ok st' →
  adds (finding_of LastLine) st st'.
Proof.
  unfold check_last_line. intros H.
  repeat case_match; simplify_eq; adds_steps.
  apply guess_country_Ok in H as [->|(code & cn & address & _ & _ & ->)];
    adds_steps.
Qed.

End RuleSteps.

(** ** The rules in sequence *)

Lemma adds_other r r' st st' :
  r' ≠ r → adds (finding_of r') st st' → adds (finding_of_other r) st st'.
Proof. intros Hne. apply adds_mono. intros e He. by exists r'. Qed.

Lemma custom_templates_adds_other templates json r props st st' :
  (∀ p, CustomTemplate p ≠ r) →
  for_of props (check_custom_template templates json) st = Ok st' →
  adds (finding_of_other r) st st'.
Proof.
  intros Hne. revert st.
  induction props as [|p props IH]; intros st; simpl.
  - intros [= <-]. apply adds_refl.
  - destruct (check_custom_template templates json p st) as [st1|e] eqn:Hp;
      simpl; [|done].
    intros Hrest. eapply adds_trans; [|by apply IH].
    eapply adds_other; [apply Hne|]. by eapply check_custom_template_adds.
Qed.

(** The steps of [run_rules], one equation each. *)
Lemma run_rules_inv autofix templates countries cities json st :
  run_rules autofix templates countries cities json = Ok st →
  ∃ st1 st2 lines st3,
    check_required_elements json {| af_json := json; errors := []; autofixes := [] |}
    = Ok st1
    ∧ for_of custom_template_props (check_custom_template templates json) st1 = Ok st2
    ∧ split_address json = Ok lines
    ∧ fix_name_in_first_line autofix json lines
        (check_name_in_address json lines
           (check_lines_trimmed autofix lines
              (check_line_count lines
                 (foldl (check_trimmed autofix json) (check_quality json st2)
                    (JS.keys json)))))
      = Ok st3
    ∧ check_last_line autofix countries cities lines st3 = Ok st.
Proof.
  unfold run_rules. intros H.
  apply bind_Ok in H as (st1 & H1 & H).
  apply bind_Ok in H as (st2 & H2 & H).
  apply bind_Ok in H as (lines & Hl & H).
  apply bind_Ok in H as (st3 & H3 & H).
  by exists st1, st2, lines, st3.
Qed.

(** After the first rule, every finding comes from another rule. *)
Lemma rules_after_first_adds autofix templates countries cities json st1 st2 lines st3 st :
  for_of custom_template_props (check_custom_template templates json) st1 = Ok st2 →
  fix_name_in_first_line autofix json lines
    (check_name_in_address json lines
       (check_lines_trimmed autofix lines
          (check_line_count lines
             (foldl (check_trimmed autofix json) (check_quality json st2)
                (JS.keys json)))))
  = Ok st3 →
  check_last_line autofix countries cities lines st3 = Ok st →
  adds (finding_of_other RequiredElements) st1 st.
Proof.
  intros H2 H3 H4.
  eapply adds_trans; [by eapply custom_templates_adds_other|].
  eapply adds_trans; [eapply adds_other, check_quality_adds; done|].
  eapply adds_trans; [eapply adds_other, check_all_trimmed_adds; done|].
  eapply adds_trans; [eapply adds_other, check_line_count_adds; done|].
  eapply adds_trans; [eapply adds_other, check_lines_trimmed_adds; done|].
  eapply adds_trans; [eapply adds_other, check_name_in_address_adds; done|].
  eapply adds_trans;
    [eapply adds_other; [|by eapply fix_name_in_first_line_adds]; done|].
  eapply adds_other; [|by eapply check_last_line_adds]; done.
Qed.

(** ** The required-elements rule *)

Lemma some_type_is_name_Ok els b :
  some_type_is_name els = Ok b → b = existsb type_is_name els.
Proof.
  induction els as [|el els IH]; simpl; [by intros [= <-]|].
  destruct el as [| | | |xs|props]; simpl; try done.
  destruct (strict_eq_string (JS.get "type" props) "name"); simpl; [|done].
  by intros [= <-].
Qed.

Lemma check_required_elements_spec json st st' :
  check_required_elements json st = Ok st' →
  st' = match JS.get "required-elements" json with
        | Some (JArr els) =>
            if existsb type_is_name els then st else push_error required_elements_error st
        | _ => st
        end.
Proof.
  unfold check_required_elements.
  destruct (JS.get "required-elements" json) as [[|b|n|s|els|ps]|]; simpl;
    try done; try (by intros [= <-]).
  - by destruct b; [|intros [= <-]].
  - by case_match; [|intros [= <-]].
  - by case_match; [|intros [= <-]].
  - intros H. apply bind_Ok in H as (b & Hb & H).
    apply some_type_is_name_Ok in Hb as <-.
    destruct b; simpl in H; by injection H as <-.
Qed.






(** ** The custom-template rule *)

(** C7 (as the code has it).  A [custom-*-template] property whose value
    is not truthy, the test of line 128, is not checked.  For a truthy
    value, a language that gives the catalogue key [key] and a catalogue
    with an entry for it: when the value is a string of the entry, the
    rule pushes nothing; when it is not, the rule converts the value for
    the message and pushes exactly one error, the one of line 131 without
    [ref] when [request-language] is set (truthy) and the one of line 136
    with a [ref] when it is not, or throws when the value cannot be
    converted.  The rule records no autofix and leaves the fixed copy
    alone. *)
Theorem custom_template_rule (templates : gmap string (list string))
    (json : list (string * json)) (prop : string) (st : checks_state) :
  (JS.truthy (JS.get prop json) = false →
   check_custom_template templates json prop st = Ok st)
  ∧ ∀ key available,
      JS.truthy (JS.get prop json) = true →
      catalogue_key json = Ok key →
      templates !! key = Some available →
      (names_template_of available json prop →
       check_custom_template templates json prop st = Ok st)
      ∧ (¬ names_template_of available json prop →
         (∀ value,
            JS.ToString (JS.get prop json) = Ok value →
            ∃ e,
              check_custom_template templates json prop st
              = Ok {| af_json := af_json st; errors := errors st ++ [e];
                      autofixes := autofixes st |}
              ∧ e = (if JS.truthy (JS.get "request-language" json)
                     then template_language_error prop value key
                     else template_english_error prop value)
              ∧ (is_Some (ref e)
                 ↔ JS.truthy (JS.get "request-language" json) = false))
         ∧ ∀ err,
             JS.ToString (JS.get prop json) = Throw err →
             check_custom_template templates json prop st = Throw err).
Proof.
  split.
  { intros Hprop. unfold check_custom_template. by rewrite Hprop. }
  intros key available Hprop Hkey Hav.
  unfold check_custom_template, catalogue_key in *. rewrite Hprop.
  assert (Hinc : ∀ b, includes_value available (JS.get prop json) = b →
                      (b = true ↔ names_template_of available json prop)).
  { intros b <-. apply includes_value_true. }
  destruct (JS.truthy (JS.get "request-language" json)) eqn:Hset.
  - rewrite Hkey. cbn [mbind result_bind]. rewrite Hav.
    destruct (includes_value available (JS.get prop json)) eqn:Hi;
      specialize (Hinc _ eq_refl); cbn [negb].
    + split; [done|]. intros Hnot. destruct Hnot. by apply Hinc.
    + split; [intros Hin%Hinc; done|]. intros _. split.
      * intros value ->. cbn [mbind result_bind]. eexists. split; [done|].
        split; [done|]. simpl. split; [by intros [? ?]|done].
      * by intros err ->.
  - injection Hkey as <-. rewrite Hav.
    destruct (includes_value available (JS.get prop json)) eqn:Hi;
      specialize (Hinc _ eq_refl); cbn [negb].
    + split; [done|]. intros Hnot. destruct Hnot. by apply Hinc.
    + split; [intros Hin%Hinc; done|]. intros _. split.
      * intros value ->. cbn [mbind result_bind]. eexists. split; [done|].
        split; [done|]. simpl. split; [done|by eexists].
      * by intros err ->.
Qed.

Lemma custom_template_rule_witness :
  ∃ e,
    check_custom_template templates_example record_custom_template
      "custom-access-template"
      {| af_json := record_custom_template; errors := []; autofixes := [] |}
    = Ok {| af_json := record_custom_template; errors := [e]; autofixes := [] |}
    ∧ e = template_english_error "custom-access-template" "access-acme"
    ∧ (is_Some (ref e)
       ↔ JS.truthy (JS.get "request-language" record_custom_template) = false).
Proof.
  apply (proj2 (proj2 (custom_template_rule templates_example record_custom_template
                  "custom-access-template"
                  {| af_json := record_custom_template; errors := [];
                     autofixes := [] |})
                  "en" ["access-default"; "erasure-default"] eq_refl eq_refl eq_refl)).
  - intros (s & [= <-] & Hin). revert Hin. apply (bool_decide_unpack _). by vm_compute.
  - reflexivity.
Defined.

(** C7, counterexample.  A custom template that is present and empty is
    in no entry of the catalogue, and still the rule reports nothing: an
    empty text is not truthy.  And a custom template that is an object
    with a property [toString] of its own is in no entry either, and the
    rule throws where it builds the message. *)
Lemma falsy_or_unconvertible_custom_template :
  JS.get "custom-access-template" record_empty_template = Some (JStr "")
  ∧ templates_example !! "en" = Some ["access-default"; "erasure-default"]
  ∧ additional_checks false templates_example countries_excerpt cities_excerpt
      (JObj record_empty_template) acme_json (disk_with acme_json "{}")
    = Ok ([], disk_with acme_json "{}")
  ∧ additional_checks false templates_example countries_excerpt cities_excerpt
      (JObj record_object_template) acme_json (disk_with acme_json "{}")
    = Throw (TypeError "Cannot convert object to primitive value").
Proof. repeat split; by vm_compute. Qed.

(** ** Address lines and the pattern of line 197 *)

Lemma split_LF_cons s : ∃ first rest, split_LF s = first :: rest.
Proof.
  induction s as [|c s (first & rest & IH)]; simpl; [by eexists _, _|].
  case_bool_decide; [by eexists _, _|]. rewrite IH. by eexists _, _.
Qed.

Lemma match_digits_then_space_head c s :
  c = SP → is_Some (match_digits_then_space (String c s)).
Proof.
  intros ->. simpl. destruct (match_digits_then_space s); by eexists.
Qed.

(** The pattern of line 197 matches every text that holds a space. *)
Lemma city_pattern_exec_space s :
  SP ∈ list_ascii_of_string s → is_Some (city_pattern_exec s).
Proof.
  induction s as [|c s IH]; simpl; [by intros ?%elem_of_nil|].
  intros Hin. apply elem_of_cons in Hin as [Heq | Hin].
  - destruct (match_digits_then_space_head c s (eq_sym Heq)) as [r Hr].
    simpl in Hr. rewrite Hr. by eexists.
  - destruct (if digit_or_space c then _ else _); [by eexists|]. by apply IH.
Qed.

(** ** The write of line 209 *)


(** ** Records the rules cannot evaluate *)


(** ** A pass that records no autofix *)





Section QuietSteps.

Variable autofix : bool.
Variable templates : gmap string (list string).
Variable countries : gmap string country.
Variable cities : list city.












End QuietSteps.



(** ** The two end-to-end scenarios and the save of line 209 *)

(** C2.  On the scenario record in auto-fix mode the pattern of line 197
    finds no space in [Berlin], [exec] returns [null] and reading its
    group throws: the run ends there, with no finding reported and the
    file as it was. *)
Theorem scenario_B_throws :
  JSON_parse scenario_text = Ok scenario_record
  ∧ city_pattern_exec "Berlin" = None
  ∧ additional_checks true templates_example countries_excerpt cities_excerpt
      scenario_record acme_json (disk_with acme_json scenario_text)
    = Throw (TypeError "Cannot read properties of null (reading '1')")
  ∧ test_records JSON_parse true templates_example countries_excerpt cities_excerpt
      any_schema any_schema [acme_json] [] (disk_with acme_json scenario_text)
    = (Throw (TypeError "Cannot read properties of null (reading '1')"),
       disk_with acme_json scenario_text).
Proof. repeat split; by vm_compute. Qed.

(** With a postal code before the city the scenario goes as described:
    two autofixes, the name line removed and the country appended, and the
    file written with four spaces of indentation and one final newline. *)
Lemma scenario_B_with_postcode :
  ∃ evs d',
    additional_checks true templates_example countries_excerpt cities_excerpt
      (JObj scenario_record_postcode) acme_json (disk_with acme_json scenario_text)
    = Ok (evs, d')
    ∧ of_type TAutofix evs
      = [with_type TAutofix duplicate_name_autofix;
         with_type TAutofix (guessed_country_autofix "DE")]
    ∧ address_on_disk acme_json d'
      = Some (JStr ("Musterstr. 1" ++ NL ++ "10115 Berlin" ++ NL ++ "Germany")%string)
    ∧ writes d'
      = [(acme_json,
          (JSON_stringify_4
             (JObj (JS.set "address"
                      (JStr ("Musterstr. 1" ++ NL ++ "10115 Berlin" ++ NL ++ "Germany"))
                      scenario_record_postcode))
           ++ NL)%string)].
Proof. eexists _, _. repeat split; by vm_compute. Qed.

(** In auto-fix mode a run of the rules that returns always ends in a
    write: the guard of line 209 compares the record with its copy by
    identity, and the copy is a new object. *)
Lemma autofix_always_writes (templates : gmap string (list string))
    (countries : gmap string country) (cities : list city)
    (json : list (string * json)) (f : string) (d : disk) (evs : list TestEvent)
    (d' : disk) :
  additional_checks true templates countries cities (JObj json) f d = Ok (evs, d') →
  ∃ st, run_rules true templates countries cities json = Ok st
        ∧ d' = writeFileSync f (JSON_stringify_4 (JObj (af_json st)) ++ NL) d.
Proof.
  unfold additional_checks. intros (st & Hst & [= _ <-])%bind_Ok. by exists st.
Qed.

Lemma autofix_always_writes_witness :
  ∃ st, run_rules true templates_example countries_excerpt cities_excerpt clean_record
        = Ok st
        ∧ writeFileSync acme_json (JSON_stringify_4 (JObj clean_record) ++ NL)
            (disk_with acme_json clean_text)
          = writeFileSync acme_json (JSON_stringify_4 (JObj (af_json st)) ++ NL)
              (disk_with acme_json clean_text).
Proof.
  apply (autofix_always_writes templates_example countries_excerpt cities_excerpt
           clean_record acme_json (disk_with acme_json clean_text) []).
  by vm_compute.
Defined.

(** C3.  The clean record needs no fix: the pass finds nothing and its
    fixed copy equals the record, and still the file is written again, here
    with another layout than the one-line file it replaces. *)
Theorem clean_record_is_rewritten :
  JSON_parse clean_text = Ok (JObj clean_record)
  ∧ run_rules true templates_example countries_excerpt cities_excerpt clean_record
    = Ok {| af_json := clean_record; errors := []; autofixes := [] |}
  ∧ writes (autofix_pass acme_json (disk_with acme_json clean_text))
    = [(acme_json, (JSON_stringify_4 (JObj clean_record) ++ NL)%string)]
  ∧ contents (autofix_pass acme_json (disk_with acme_json clean_text)) !! acme_json
    ≠ Some clean_text.
Proof. repeat split; by vm_compute. Qed.

(** * Further properties *)

(** ** The error findings as a function of the record *)

Section ErrorsOfSteps.

Variable autofix : bool.
Variable templates : gmap string (list string).
Variable countries : gmap string country.
Variable cities : list city.

Lemma check_required_elements_errors json st st' :
  check_required_elements json st = Ok st' →
  errors st' = errors st ++ required_elements_errors json.
Proof.
  intros ->%check_required_elements_spec. unfold required_elements_errors.
  repeat case_match; simpl; by rewrite ?app_nil_r.
Qed.

Lemma check_custom_template_errors json prop st st' :
  check_custom_template templates json prop st = Ok st' →
  errors st' = errors st ++ template_errors_of templates json prop.
Proof.
  intros [[-> ->]|[-> ->]]%check_custom_template_Ok; simpl; by rewrite ?app_nil_r.
Qed.

Lemma custom_templates_errors json props st st' :
  for_of props (check_custom_template templates json) st = Ok st' →
  errors st' = errors st ++ flat_map (template_errors_of templates json) props.
Proof.
  revert st. induction props as [|p props IH]; intros st; simpl.
  - intros [= <-]. by rewrite app_nil_r.
  - intros (st1 & H1 & H)%bind_Ok.
    apply check_custom_template_errors in H1. apply IH in H.
    by rewrite H, H1, app_assoc.
Qed.

Lemma check_quality_errors json st :
  errors (check_quality json st) = errors st ++ quality_errors json.
Proof.
  unfold check_quality, quality_errors.
  repeat case_match; simpl; by rewrite ?app_nil_r.
Qed.

Lemma check_trimmed_errors json st key :
  errors (check_trimmed autofix json st key)
  = errors st ++ (if untrimmed json key then [untrimmed_error key] else []).
Proof.
  unfold check_trimmed, untrimmed.
  repeat case_match; simpl; by rewrite ?app_nil_r.
Qed.

Lemma check_all_trimmed_errors json keys st :
  errors (foldl (check_trimmed autofix json) st keys)
  = errors st ++ map untrimmed_error (List.filter (untrimmed json) keys).
Proof.
  revert st. induction keys as [|key keys IH]; intros st; simpl;
    [by rewrite app_nil_r|].
  rewrite IH, check_trimmed_errors, <- app_assoc.
  by destruct (untrimmed json key).
Qed.

Lemma check_line_count_errors lines st :
  errors (check_line_count lines st) = errors st ++ line_count_errors lines.
Proof.
  unfold check_line_count, line_count_errors.
  case_match; simpl; by rewrite ?app_nil_r.
Qed.

Lemma check_lines_trimmed_errors lines st :
  errors (check_lines_trimmed autofix lines st)
  = errors st ++ lines_trimmed_errors lines.
Proof.
  unfold check_lines_trimmed, lines_trimmed_errors.
  repeat case_match; simpl; by rewrite ?app_nil_r.
Qed.

Lemma check_name_in_address_errors json lines st :
  errors (check_name_in_address json lines st)
  = errors st ++ name_in_address_errors json lines.
Proof.
  unfold check_name_in_address, name_in_address_errors.
  case_match; simpl; by rewrite ?app_nil_r.
Qed.

Lemma fix_name_in_first_line_errors json lines st st' :
  fix_name_in_first_line autofix json lines st = Ok st' → errors st' = errors st.
Proof.
  unfold fix_name_in_first_line. intros H. by repeat case_match; simplify_eq.
Qed.

Lemma last_split_LF address :
  last (split_LF address) = Some (default "" (last (split_LF address))).
Proof.
  destruct (split_LF_cons address) as (first & rest & Hs).
  destruct (last (split_LF address)) eqn:Hl; [done|].
  rewrite Hs in Hl. by apply last_None in Hl.
Qed.

Lemma check_last_line_errors address st st' :
  check_last_line autofix countries cities (split_LF address) st = Ok st' →
  errors st' = errors st ++ last_line_errors countries address.
Proof.
  unfold check_last_line, last_line_errors, last_line_of.
  rewrite last_split_LF. simpl.
  destruct (isLastLineCountry countries _ country_name_variations); simpl;
    [intros [= <-]; by rewrite app_nil_r|].
  destruct autofix; [|by intros [= <-]].
  by intros [->|(code & cn & a & _ & _ & ->)]%guess_country_Ok.
Qed.

End ErrorsOfSteps.

Lemma run_rules_errors autofix templates countries cities json st :
  run_rules autofix templates countries cities json = Ok st →
  ∃ address, JS.get "address" json = Some (JStr address)
             ∧ errors st = expected_errors templates countries json address.
Proof.
  intros (st1 & st2 & lines & st3 & H1 & H2 & Hl & H3 & H4)%run_rules_inv.
  unfold split_address in Hl.
  destruct (JS.get "address" json) as [[| | |address| |]|]; try done.
  injection Hl as <-. exists address. split; [done|].
  apply check_last_line_errors in H4. apply fix_name_in_first_line_errors in H3.
  apply custom_templates_errors in H2. apply check_required_elements_errors in H1.
  rewrite H4, H3, check_name_in_address_errors, check_lines_trimmed_errors,
    check_line_count_errors, check_all_trimmed_errors, check_quality_errors, H2, H1.
  unfold expected_errors, template_errors. simpl. by rewrite <- !app_assoc.
Qed.


(** ** Findings by kind, and the two modes *)

Lemma of_type_with_type t t' evs :
  of_type t (map (with_type t') evs)
  = if decide (t' = t) then map (with_type t') evs else [].
Proof.
  unfold of_type. induction evs as [|e evs IH]; simpl; [by case_decide|].
  case_decide as Ht.
  - rewrite filter_cons_True by (simpl; congruence). by rewrite IH.
  - rewrite filter_cons_False by (simpl; congruence). done.
Qed.

Lemma of_type_returnevents_error st :
  of_type TError (returnevents st) = map (with_type TError) (errors st).
Proof.
  unfold returnevents, of_type. rewrite filter_app.
  fold (of_type TError (map (with_type TAutofix) (autofixes st))).
  fold (of_type TError (map (with_type TError) (errors st))).
  by rewrite !of_type_with_type.
Qed.

Section ReportOnlySteps.

Variable templates : gmap string (list string).
Variable countries : gmap string country.
Variable cities : list city.

Lemma check_all_trimmed_report json keys st :
  autofixes (foldl (check_trimmed false json) st keys) = autofixes st
  ∧ af_json (foldl (check_trimmed false json) st keys) = af_json st.
Proof.
  revert st. induction keys as [|key keys IH]; intros st; simpl; [done|].
  destruct (IH (check_trimmed false json st key)) as [-> ->].
  unfold check_trimmed. by repeat case_match.
Qed.

Lemma custom_templates_copy json props st st' :
  for_of props (check_custom_template templates json) st = Ok st' →
  autofixes st' = autofixes st ∧ af_json st' = af_json st.
Proof.
  revert st. induction props as [|p props IH]; intros st; simpl.
  - by intros [= <-].
  - intros (st1 & H1 & H)%bind_Ok. apply IH in H as [-> ->].
    by apply check_custom_template_Ok in H1 as [[-> _]|[-> _]].
Qed.

Lemma run_rules_report_only json st :
  run_rules false templates countries cities json = Ok st →
  autofixes st = [] ∧ af_json st = json.
Proof.
  intros (st1 & st2 & lines & st3 & H1 & H2 & Hl & H3 & H4)%run_rules_inv.
  apply check_required_elements_spec in H1.
  apply custom_templates_copy in H2 as [Ha2 Hc2].
  assert (autofixes st1 = [] ∧ af_json st1 = json) as [Ha1 Hc1]
    by (subst st1; by repeat case_match).
  simpl in H3. injection H3 as <-.
  unfold check_last_line in H4.
  assert (autofixes st = autofixes st2 ∧ af_json st = af_json st2) as [-> ->].
  { destruct (check_all_trimmed_report json (JS.keys json) (check_quality json st2))
      as [Ha Hc].
    unfold check_name_in_address, check_lines_trimmed, check_line_count in H4.
    repeat case_match; simplify_eq; simpl; rewrite ?Ha, ?Hc;
      unfold check_quality; by repeat case_match. }
  by rewrite Ha2, Hc2.
Qed.

End ReportOnlySteps.

(** The list [additional_checks] returns holds the autofix findings first
    and the error findings after them, every one with its [type]; in
    report-only mode it holds no autofix finding. *)
Theorem findings_autofixes_then_errors (autofix : bool)
    (templates : gmap string (list string)) (countries : gmap string country)
    (cities : list city) (json : json) (f : string) (d : disk)
    (evs : list TestEvent) (d' : disk) :
  additional_checks autofix templates countries cities json f d = Ok (evs, d') →
  ∃ fixes errs,
    evs = fixes ++ errs
    ∧ Forall (λ e, type e = Some TAutofix) fixes
    ∧ Forall (λ e, type e = Some TError) errs
    ∧ (autofix = false → fixes = []).
Proof.
  unfold additional_checks. destruct json as [| | | | |props]; try done.
  intros (st & Hst & [= <- _])%bind_Ok.
  exists (map (with_type TAutofix) (autofixes st)), (map (with_type TError) (errors st)).
  split; [done|]. split; [by apply Forall_map, Forall_true|].
  split; [by apply Forall_map, Forall_true|].
  intros ->. by apply run_rules_report_only in Hst as [-> _].
Qed.

Lemma findings_autofixes_then_errors_witness :
  ∃ fixes errs,
    [with_type TAutofix duplicate_name_autofix;
     with_type TAutofix (guessed_country_autofix "DE");
     with_type TError required_elements_error;
     with_type TError name_in_address_error;
     with_type TError (last_line_error "10115 Berlin")] = fixes ++ errs
    ∧ Forall (λ e, type e = Some TAutofix) fixes
    ∧ Forall (λ e, type e = Some TError) errs
    ∧ (true = false → fixes = []).
Proof.
  eapply (findings_autofixes_then_errors true templates_example countries_excerpt
            cities_excerpt (JObj scenario_record_postcode) acme_json
            (disk_with acme_json "{}")).
  by vm_compute.
Defined.

Lemma check_required_elements_any_state json st st' st2 :
  check_required_elements json st = Ok st' →
  ∃ st2', check_required_elements json st2 = Ok st2'.
Proof.
  unfold check_required_elements.
  destruct (JS.truthy _); [|by eexists].
  destruct (JS.get "required-elements" json) as [[| | | |els|]|]; try done.
  intros (b & -> & _)%bind_Ok. simpl. destruct b; by eexists.
Qed.

Lemma custom_templates_any_state templates json props st st' st2 :
  for_of props (check_custom_template templates json) st = Ok st' →
  ∃ st2', for_of props (check_custom_template templates json) st2 = Ok st2'.
Proof.
  revert st st2. induction props as [|p props IH]; intros st st2; simpl;
    [by eexists|].
  intros (st1 & H1 & H)%bind_Ok.
  assert (∃ st3, check_custom_template templates json p st2 = Ok st3) as [st3 ->].
  { apply check_custom_template_returns.
    apply (check_custom_template_returns templates json p st). by eexists. }
  simpl. by eapply IH.
Qed.

Lemma run_rules_report_returns templates countries cities json st :
  run_rules true templates countries cities json = Ok st →
  ∃ st0, run_rules false templates countries cities json = Ok st0.
Proof.
  intros (st1 & st2 & lines & st3 & H1 & H2 & Hl & H3 & H4)%run_rules_inv.
  unfold run_rules. rewrite H1. cbn [mbind result_bind]. rewrite H2, Hl.
  cbn [mbind result_bind fix_name_in_first_line].
  unfold split_address in Hl.
  destruct (JS.get "address" json) as [[| | |address| |]|]; try done.
  injection Hl as <-. unfold check_last_line. rewrite last_split_LF.
  case_match; by eexists.
Qed.

(** The error findings do not depend on the mode: when the auto-fix run of
    the rules returns, the report-only run returns too, leaves the disk
    alone, and reports exactly the error findings of the auto-fix run. *)
Theorem errors_same_in_both_modes (templates : gmap string (list string))
    (countries : gmap string country) (cities : list city) (json : json)
    (f : string) (d : disk) (evs : list TestEvent) (d' : disk) :
  additional_checks true templates countries cities json f d = Ok (evs, d') →
  additional_checks false templates countries cities json f d
  = Ok (of_type TError evs, d).
Proof.
  unfold additional_checks. destruct json as [| | | | |props]; try done.
  intros (st & Hst & [= <- _])%bind_Ok.
  destruct (run_rules_report_returns _ _ _ _ _ Hst) as [st0 Hst0].
  rewrite Hst0. simpl. f_equal. f_equal.
  rewrite of_type_returnevents_error.
  apply run_rules_errors in Hst as (address & Ha & ->).
  apply run_rules_errors in Hst0 as Herr. destruct Herr as (address0 & Ha0 & He0).
  apply run_rules_report_only in Hst0 as [Hnone _].
  unfold returnevents. rewrite Hnone, He0. simpl. by simplify_eq.
Qed.

Lemma errors_same_in_both_modes_witness :
  additional_checks false templates_example countries_excerpt cities_excerpt
    (JObj scenario_record_postcode) acme_json (disk_with acme_json "{}")
  = Ok ([with_type TError required_elements_error;
         with_type TError name_in_address_error;
         with_type TError (last_line_error "10115 Berlin")],
        disk_with acme_json "{}").
Proof.
  eapply (errors_same_in_both_modes templates_example countries_excerpt
            cities_excerpt (JObj scenario_record_postcode) acme_json
            (disk_with acme_json "{}")
            [with_type TAutofix duplicate_name_autofix;
             with_type TAutofix (guessed_country_autofix "DE");
             with_type TError required_elements_error;
             with_type TError name_in_address_error;
             with_type TError (last_line_error "10115 Berlin")]).
  by vm_compute.
Defined.

(** The error findings of a run that returns are those the rules give for
    the record, in the order of the rules: required elements, the four
    custom templates, quality, untrimmed fields in key order, line count,
    untrimmed lines, name in the address, last line. *)
Theorem error_findings_follow_rules (autofix : bool)
    (templates : gmap string (list string)) (countries : gmap string country)
    (cities : list city) (json : list (string * json)) (f : string) (d : disk)
    (evs : list TestEvent) (d' : disk) :
  additional_checks autofix templates countries cities (JObj json) f d = Ok (evs, d') →
  ∃ address,
    JS.get "address" json = Some (JStr address)
    ∧ of_type TError evs
      = map (with_type TError) (expected_errors templates countries json address).
Proof.
  unfold additional_checks. intros (st & Hst & [= <- _])%bind_Ok.
  apply run_rules_errors in Hst as (address & Ha & He).
  exists address. split; [done|]. by rewrite of_type_returnevents_error, He.
Qed.

Lemma error_findings_follow_rules_witness :
  ∃ address,
    JS.get "address" scenario_record_postcode = Some (JStr address)
    ∧ of_type TError
        [with_type TAutofix duplicate_name_autofix;
         with_type TAutofix (guessed_country_autofix "DE");
         with_type TError required_elements_error;
         with_type TError name_in_address_error;
         with_type TError (last_line_error "10115 Berlin")]
      = map (with_type TError)
          (expected_errors templates_example countries_excerpt
             scenario_record_postcode address).
Proof.
  eapply (error_findings_follow_rules true templates_example countries_excerpt
            cities_excerpt scenario_record_postcode acme_json
            (disk_with acme_json "{}")).
  by vm_compute.
Defined.


(** ** The error of each rule in the returned list *)

Lemma expected_errors_by_rule templates countries json address :
  expected_errors templates countries json address
  = flat_map (rule_errors templates countries json address) rule_order.
Proof.
  unfold expected_errors, template_errors. simpl. by rewrite !app_nil_r, <- !app_assoc.
Qed.

Lemma rule_errors_findings templates countries json address r :
  Forall (finding_of r) (rule_errors templates countries json address r).
Proof.
  destruct r; simpl;
    unfold required_elements_errors, template_errors_of, template_error,
      quality_errors, trim_errors, line_count_errors, lines_trimmed_errors,
      name_in_address_errors, last_line_errors;
    repeat case_match; repeat constructor.
  apply Forall_map, Forall_true. constructor.
Qed.

Lemma finding_of_raw r e : finding_of r e → type e = None.
Proof. by destruct 1. Qed.

(** A raw finding [e0] that only rule [r0] can push is among the errors of
    a record exactly when it is among those of [r0]. *)
Lemma in_expected_errors templates countries json address r0 e0 :
  r0 ∈ rule_order →
  (∀ r, r ∈ rule_order → finding_of r e0 → r = r0) →
  e0 ∈ expected_errors templates countries json address
  ↔ e0 ∈ rule_errors templates countries json address r0.
Proof.
  intros Hin Huniq. rewrite expected_errors_by_rule, list_elem_of_In, in_flat_map.
  split.
  - intros (r & Hr%list_elem_of_In & He%list_elem_of_In).
    pose proof (rule_errors_findings templates countries json address r) as Hall.
    rewrite Forall_forall in Hall. by rewrite <- (Huniq r Hr (Hall _ He)).
  - intros He. exists r0. by rewrite <- !list_elem_of_In.
Qed.

Lemma typed_error_in_returnevents st e0 :
  Forall (λ e, type e = None) (errors st) → type e0 = None →
  with_type TError e0 ∈ returnevents st ↔ e0 ∈ errors st.
Proof.
  intros Hraw H0. unfold returnevents. rewrite elem_of_app, !list_elem_of_In, !in_map_iff.
  split.
  - intros [(e & Heq & _) | (e & Heq & He)]; [done|].
    rewrite Forall_forall in Hraw.
    pose proof (Hraw e (proj2 (list_elem_of_In _ _) He)) as Hte.
    assert (e = e0) as <-; [|done].
    destruct e, e0; simpl in *; by simplify_eq.
  - intros He. right. by exists e0.
Qed.

(** The error [e0], which only rule [r0] pushes, is returned exactly when
    the errors of [r0] hold it. *)
Lemma typed_error_returned autofix templates countries cities json f d evs d'
    address r0 e0 :
  additional_checks autofix templates countries cities (JObj json) f d = Ok (evs, d') →
  JS.get "address" json = Some (JStr address) →
  r0 ∈ rule_order → finding_of r0 e0 →
  (∀ r, r ∈ rule_order → finding_of r e0 → r = r0) →
  with_type TError e0 ∈ evs
  ↔ e0 ∈ rule_errors templates countries json address r0.
Proof.
  unfold additional_checks. intros (st & Hst & [= <- _])%bind_Ok Ha Hin H0 Huniq.
  apply run_rules_errors in Hst as (address' & Ha' & He). simplify_eq.
  rewrite typed_error_in_returnevents.
  - rewrite He. by apply in_expected_errors.
  - rewrite He, expected_errors_by_rule, Forall_forall.
    intros e (r & _ & Hr%list_elem_of_In)%list_elem_of_In%in_flat_map.
    pose proof (rule_errors_findings templates countries json address' r) as Hall.
    rewrite Forall_forall in Hall. eapply finding_of_raw, Hall, Hr.
  - by eapply finding_of_raw.
Qed.

Ltac in_rule_order :=
  unfold rule_order, custom_template_props; simpl;
  repeat first [apply list_elem_of_here | apply list_elem_of_further].

Ltac only_rule :=
  let H := fresh "H" in
  intros _ H; inversion H; subst; (reflexivity || discriminate).

Lemma quality_error_rule r :
  r ∈ rule_order → finding_of r quality_error → r = Quality.
Proof. only_rule. Qed.

Lemma line_count_error_rule r :
  r ∈ rule_order → finding_of r line_count_error → r = LineCount.
Proof. only_rule. Qed.

Lemma address_untrimmed_error_rule r :
  r ∈ rule_order → finding_of r address_untrimmed_error → r = LinesTrimmed.
Proof. only_rule. Qed.

Lemma name_in_address_error_rule r :
  r ∈ rule_order → finding_of r name_in_address_error → r = NameInAddress.
Proof. only_rule. Qed.

Lemma untrimmed_error_rule key r :
  r ∈ rule_order → finding_of r (untrimmed_error key) → r = Trimmed.
Proof. only_rule. Qed.

Lemma last_line_error_rule line r :
  r ∈ rule_order → finding_of r (last_line_error line) → r = LastLine.
Proof. only_rule. Qed.


Lemma error_findings_address autofix templates countries cities json f d evs d' :
  additional_checks autofix templates countries cities (JObj json) f d = Ok (evs, d') →
  ∃ address, JS.get "address" json = Some (JStr address).
Proof.
  unfold additional_checks. intros (st & Hst & _)%bind_Ok.
  apply run_rules_errors in Hst as (address & Ha & _). by exists address.
Qed.

Lemma list_ascii_of_string_app (s t : string) :
  list_ascii_of_string (s ++ t) = list_ascii_of_string s ++ list_ascii_of_string t.
Proof. induction s as [|c s IH]; simpl; by rewrite ?IH. Qed.

Lemma list_ascii_of_string_inj (s t : string) :
  list_ascii_of_string s = list_ascii_of_string t → s = t.
Proof.
  intros H. by rewrite <- (string_of_list_ascii_of_string s),
    <- (string_of_list_ascii_of_string t), H.
Qed.

Lemma string_app_inv_tail (s1 s2 t : string) : (s1 ++ t = s2 ++ t)%string → s1 = s2.
Proof.
  intros H%(f_equal list_ascii_of_string). rewrite !list_ascii_of_string_app in H.
  by apply app_inv_tail, list_ascii_of_string_inj in H.
Qed.

Lemma untrimmed_error_inj key key' :
  untrimmed_error key = untrimmed_error key' → key = key'.
Proof.
  unfold untrimmed_error, ev_msg. intros [= H].
  eapply string_app_inv_tail. exact H.
Qed.

Lemma get_Some_in_keys key (props : list (string * json)) v :
  JS.get key props = Some v → key ∈ JS.keys props.
Proof.
  unfold JS.keys. induction props as [|[k w] props IH]; simpl; [done|].
  case_bool_decide as Hk; [intros _; subst; by left|].
  intros H. right. by apply IH.
Qed.

Lemma untrimmed_true json key :
  untrimmed json key = true ↔ ∃ s, JS.get key json = Some (JStr s) ∧ s ≠ trim s.
Proof.
  unfold untrimmed. split.
  - destruct (JS.get key json) as [[| | |s| |]|]; try done.
    intros H%negb_true_iff%bool_decide_eq_false. by exists s.
  - intros (s & -> & Hs). by apply negb_true_iff, bool_decide_eq_false.
Qed.

Lemma split_LF_single_iff (s : string) :
  List.length (split_LF s) < 2 ↔ LF ∉ list_ascii_of_string s.
Proof.
  induction s as [|c s IH]; simpl.
  - split; [intros _ H; by apply elem_of_nil in H|lia].
  - rewrite not_elem_of_cons. case_bool_decide as Hc.
    + simpl. destruct (split_LF_cons s) as (h & t & ->). simpl.
      split; [lia|]. by intros [? _].
    + destruct (split_LF_cons s) as (h & t & Hs). rewrite Hs in *. simpl in *.
      rewrite IH. split; [by split|by intros [_ ?]].
Qed.

(** The quality rule, lines 145-151: a returning run lists its error
    exactly when [quality] is the string [tested] and [required-elements]
    is absent or falsy. *)
Theorem quality_rule_finding (autofix : bool) (templates : gmap string (list string))
    (countries : gmap string country) (cities : list city)
    (json : list (string * json)) (f : string) (d : disk) (evs : list TestEvent)
    (d' : disk) :
  additional_checks autofix templates countries cities (JObj json) f d = Ok (evs, d') →
  with_type TError quality_error ∈ evs
  ↔ JS.get "quality" json = Some (JStr "tested")
    ∧ JS.truthy (JS.get "required-elements" json) = false.
Proof.
  intros Hrun.
  destruct (error_findings_address _ _ _ _ _ _ _ _ _ Hrun) as [address Ha].
  rewrite (typed_error_returned _ _ _ _ _ _ _ _ _ address Quality _ Hrun Ha);
    [|in_rule_order|constructor|apply quality_error_rule].
  simpl. unfold quality_errors, strict_eq_string.
  destruct (JS.get "quality" json) as [[| | |s| |]|]; simpl;
    try (split; [by intros ?%elem_of_nil|by intros [? _]]).
  case_bool_decide as Hs; simpl.
  - subst s. destruct (JS.truthy _); simpl.
    + split; [by intros ?%elem_of_nil|by intros [_ ?]].
    + split; [done|intros _; by left].
  - split; [by intros ?%elem_of_nil|intros [[= ?] _]; done].
Qed.


Lemma quality_rule_finding_witness :
  ∃ evs d',
    additional_checks false templates_example countries_excerpt cities_excerpt
      (JObj record_tested) acme_json (disk_with acme_json "{}") = Ok (evs, d')
    ∧ with_type TError quality_error ∈ evs.
Proof.
  eexists _, _. split; [by vm_compute|].
  apply (proj2 (quality_rule_finding false templates_example countries_excerpt
                  cities_excerpt record_tested acme_json (disk_with acme_json "{}")
                  _ _ eq_refl)).
  by split.
Defined.

Lemma untrimmed_error_returned autofix templates countries cities json f d evs d'
    key :
  additional_checks autofix templates countries cities (JObj json) f d = Ok (evs, d') →
  with_type TError (untrimmed_error key) ∈ evs
  ↔ ∃ s, JS.get key json = Some (JStr s) ∧ s ≠ trim s.
Proof.
  intros Hrun.
  destruct (error_findings_address _ _ _ _ _ _ _ _ _ Hrun) as [address Ha].
  rewrite (typed_error_returned _ _ _ _ _ _ _ _ _ address Trimmed _ Hrun Ha);
    [|in_rule_order|constructor|apply untrimmed_error_rule].
  simpl. unfold trim_errors.
  rewrite list_elem_of_In, in_map_iff, <- untrimmed_true. split.
  - intros (key' & <-%untrimmed_error_inj & Hin). by apply filter_In in Hin as [_ ?].
  - intros Hu. exists key. split; [done|]. apply filter_In. split; [|done].
    apply untrimmed_true in Hu as (s & Hs & _).
    by eapply list_elem_of_In, get_Some_in_keys.
Qed.

(** The whitespace rule, lines 153-163: a returning run lists the error
    for the field [key] exactly when the value of [key] is a string that
    differs from its trimmed form. *)
Theorem untrimmed_field_finding (autofix : bool)
    (templates : gmap string (list string)) (countries : gmap string country)
    (cities : list city) (json : list (string * json)) (f : string) (d : disk)
    (evs : list TestEvent) (d' : disk) (key : string) :
  additional_checks autofix templates countries cities (JObj json) f d = Ok (evs, d') →
  with_type TError (untrimmed_error key) ∈ evs
  ↔ ∃ s, JS.get key json = Some (JStr s) ∧ s ≠ trim s.
Proof. apply untrimmed_error_returned. Qed.

Lemma untrimmed_field_finding_witness :
  ∃ evs d',
    additional_checks false templates_example countries_excerpt cities_excerpt
      (JObj record_untrimmed) acme_json (disk_with acme_json "{}") = Ok (evs, d')
    ∧ with_type TError (untrimmed_error "web") ∈ evs.
Proof.
  eexists _, _. split; [by vm_compute|].
  apply (proj2 (untrimmed_field_finding false templates_example countries_excerpt
                  cities_excerpt record_untrimmed acme_json
                  (disk_with acme_json "{}") _ _ "web" eq_refl)).
  exists "https://acme.example ". split; [reflexivity|]. by vm_compute.
Defined.

(** The two format rules of the address, lines 166-175: a returning run
    lists the line-count error exactly when the address holds no newline,
    and the linewise-trim error exactly when some line differs from its
    trimmed form. *)
Theorem address_format_findings (autofix : bool)
    (templates : gmap string (list string)) (countries : gmap string country)
    (cities : list city) (json : list (string * json)) (f : string) (d : disk)
    (evs : list TestEvent) (d' : disk) (address : string) :
  additional_checks autofix templates countries cities (JObj json) f d = Ok (evs, d') →
  JS.get "address" json = Some (JStr address) →
  (with_type TError line_count_error ∈ evs ↔ LF ∉ list_ascii_of_string address)
  ∧ (with_type TError address_untrimmed_error ∈ evs
     ↔ ∃ line, line ∈ split_LF address ∧ line ≠ trim line).
Proof.
  intros Hrun Ha. split.
  - rewrite (typed_error_returned _ _ _ _ _ _ _ _ _ address LineCount _ Hrun Ha);
      [|in_rule_order|constructor|apply line_count_error_rule].
    simpl. unfold line_count_errors. rewrite <- split_LF_single_iff.
    case_bool_decide; [split; [done|intros _; by left]|].
    split; [by intros ?%elem_of_nil|done].
  - rewrite (typed_error_returned _ _ _ _ _ _ _ _ _ address LinesTrimmed _ Hrun Ha);
      [|in_rule_order|constructor|apply address_untrimmed_error_rule].
    simpl. unfold lines_trimmed_errors.
    destruct (existsb _ (split_LF address)) eqn:Hex.
    + split; [intros _|intros _; by left].
      apply existsb_exists in Hex as (line & Hin & Hl).
      exists line. split; [by apply list_elem_of_In|].
      by apply negb_true_iff, bool_decide_eq_false in Hl.
    + split; [by intros ?%elem_of_nil|].
      intros (line & Hin & Hl).
      assert (existsb (λ line, negb (bool_decide (line = trim line))) (split_LF address)
              = true); [|congruence].
      apply existsb_exists. exists line. split; [by apply list_elem_of_In|].
      by apply negb_true_iff, bool_decide_eq_false.
Qed.

Lemma address_format_findings_witness :
  ∃ evs d',
    additional_checks false templates_example countries_excerpt cities_excerpt
      (JObj record_untrimmed) acme_json (disk_with acme_json "{}") = Ok (evs, d')
    ∧ with_type TError address_untrimmed_error ∈ evs.
Proof.
  eexists _, _. split; [by vm_compute|].
  apply (proj2 (proj2 (address_format_findings false templates_example
                         countries_excerpt cities_excerpt record_untrimmed acme_json
                         (disk_with acme_json "{}") _ _
                         ("Musterstr. 1 " ++ NL ++ "Germany")%string
                         eq_refl eq_refl))).
  exists "Musterstr. 1 ". split; [|by vm_compute].
  apply list_elem_of_here.
Defined.

(** The name rule, line 177: a returning run lists the error exactly when
    [name] is a string equal, as it stands, to one of the address lines. *)
Theorem name_in_address_finding (autofix : bool)
    (templates : gmap string (list string)) (countries : gmap string country)
    (cities : list city) (json : list (string * json)) (f : string) (d : disk)
    (evs : list TestEvent) (d' : disk) (address : string) :
  additional_checks autofix templates countries cities (JObj json) f d = Ok (evs, d') →
  JS.get "address" json = Some (JStr address) →
  with_type TError name_in_address_error ∈ evs
  ↔ ∃ nm, JS.get "name" json = Some (JStr nm) ∧ nm ∈ split_LF address.
Proof.
  intros Hrun Ha.
  rewrite (typed_error_returned _ _ _ _ _ _ _ _ _ address NameInAddress _ Hrun Ha);
    [|in_rule_order|constructor|apply name_in_address_error_rule].
  simpl. unfold name_in_address_errors, includes_value.
  destruct (JS.get "name" json) as [[| | |nm| |]|];
    try (split; [by intros ?%elem_of_nil|by intros (? & ? & _)]).
  destruct (includes (split_LF address) nm) eqn:Hinc.
  - apply includes_true in Hinc. split; [by exists nm|intros _; by left].
  - apply includes_false in Hinc.
    split; [by intros ?%elem_of_nil|intros (nm' & [= <-] & ?); done].
Qed.

Lemma name_in_address_finding_witness :
  ∃ evs d',
    additional_checks false templates_example countries_excerpt cities_excerpt
      (JObj scenario_record_postcode) acme_json (disk_with acme_json "{}")
    = Ok (evs, d')
    ∧ with_type TError name_in_address_error ∈ evs.
Proof.
  eexists _, _. split; [by vm_compute|].
  apply (proj2 (name_in_address_finding false templates_example countries_excerpt
                  cities_excerpt scenario_record_postcode acme_json
                  (disk_with acme_json "{}") _ _
                  ("Acme" ++ NL ++ "Musterstr. 1" ++ NL ++ "10115 Berlin")%string
                  eq_refl eq_refl)).
  exists "Acme". split; [reflexivity|]. apply list_elem_of_here.
Defined.

(** The country rule, lines 187-195: a returning run lists the error for
    the trimmed last address line exactly when [isLastLineCountry] rejects
    that line. *)
Theorem last_line_finding (autofix : bool) (templates : gmap string (list string))
    (countries : gmap string country) (cities : list city)
    (json : list (string * json)) (f : string) (d : disk) (evs : list TestEvent)
    (d' : disk) (address : string) :
  additional_checks autofix templates countries cities (JObj json) f d = Ok (evs, d') →
  JS.get "address" json = Some (JStr address) →
  with_type TError (last_line_error (last_line_of address)) ∈ evs
  ↔ isLastLineCountry countries (last_line_of address) country_name_variations = false.
Proof.
  intros Hrun Ha.
  rewrite (typed_error_returned _ _ _ _ _ _ _ _ _ address LastLine _ Hrun Ha);
    [|in_rule_order|constructor|apply last_line_error_rule].
  simpl. unfold last_line_errors.
  destruct (isLastLineCountry countries _ country_name_variations).
  - split; [by intros ?%elem_of_nil|done].
  - split; [done|intros _; by left].
Qed.

Lemma last_line_finding_witness :
  ∃ evs d',
    additional_checks false templates_example countries_excerpt cities_excerpt
      (JObj scenario_record_postcode) acme_json (disk_with acme_json "{}")
    = Ok (evs, d')
    ∧ with_type TError (last_line_error "10115 Berlin") ∈ evs.
Proof.
  eexists _, _. split; [by vm_compute|].
  apply (proj2 (last_line_finding false templates_example countries_excerpt
                  cities_excerpt scenario_record_postcode acme_json
                  (disk_with acme_json "{}") _ _
                  ("Acme" ++ NL ++ "Musterstr. 1" ++ NL ++ "10115 Berlin")%string
                  eq_refl eq_refl)).
  by vm_compute.
Defined.


Lemma custom_templates_entry templates json props prop st st' :
  for_of props (check_custom_template templates json) st = Ok st' →
  prop ∈ props → JS.truthy (JS.get prop json) = true →
  is_Some (templates !! effective_language json).
Proof.
  intros H2 Hp Hprop. revert st H2.
  induction props as [|p props IH]; intros st H2; [by apply elem_of_nil in Hp|].
  simpl in H2. apply bind_Ok in H2 as (st1 & H1 & H2).
  apply elem_of_cons in Hp as [-> | Hp]; [|by eapply IH].
  assert (Hev : template_evaluable templates json p).
  { apply (check_custom_template_returns templates json p st). by eexists. }
  destruct (Hev Hprop) as (key & available & Hkey & Hav & _).
  rewrite (catalogue_key_language _ _ Hkey). by eexists.
Qed.

Lemma template_error_rule json prop r :
  prop ∈ custom_template_props → r ∈ rule_order →
  finding_of r (template_error json prop) → r = CustomTemplate prop.
Proof.
  unfold custom_template_props, rule_order, template_error. simpl.
  intros Hp Hr H.
  repeat (apply elem_of_cons in Hp as [-> | Hp]);
    try (by apply elem_of_nil in Hp);
    repeat (apply elem_of_cons in Hr as [-> | Hr]);
    try (by apply elem_of_nil in Hr);
    try reflexivity;
    destruct (JS.truthy (JS.get "request-language" json));
    inversion H.
Qed.

(** The custom-template rule seen from the returned list: for each of the
    four properties, a returning run lists the error of that property
    exactly when the property is present (truthy) and the catalogue entry
    of the effective language does not hold its value. *)
Theorem custom_template_finding (autofix : bool)
    (templates : gmap string (list string)) (countries : gmap string country)
    (cities : list city) (json : list (string * json)) (f : string) (d : disk)
    (evs : list TestEvent) (d' : disk) (prop : string) :
  additional_checks autofix templates countries cities (JObj json) f d = Ok (evs, d') →
  prop ∈ custom_template_props →
  with_type TError (template_error json prop) ∈ evs
  ↔ JS.truthy (JS.get prop json) = true
    ∧ ∃ available, templates !! effective_language json = Some available
                   ∧ includes_value available (JS.get prop json) = false.
Proof.
  intros Hrun Hp.
  destruct (error_findings_address _ _ _ _ _ _ _ _ _ Hrun) as [address Ha].
  rewrite (typed_error_returned _ _ _ _ _ _ _ _ _ address (CustomTemplate prop) _
             Hrun Ha); cycle 1.
  { unfold rule_order. apply list_elem_of_further, elem_of_app. left.
    by apply list_elem_of_fmap_2. }
  { unfold template_error. case_match; constructor. }
  { intros r. by apply template_error_rule. }
  simpl. unfold template_errors_of.
  destruct (JS.truthy (JS.get prop json)) eqn:Hprop; simpl;
    [|split; [by intros ?%elem_of_nil|by intros [? _]]].
  assert (is_Some (templates !! effective_language json)) as [available Hav].
  { unfold additional_checks in Hrun.
    apply bind_Ok in Hrun as (st & Hst & _).
    apply run_rules_inv in Hst as (st1 & st2 & _ & _ & _ & H2 & _).
    by eapply custom_templates_entry. }
  rewrite Hav. simpl.
  destruct (includes_value available (JS.get prop json)) eqn:Hinc; simpl.
  - split; [by intros ?%elem_of_nil|].
    intros (_ & available' & [= <-] & ?). congruence.
  - split; [intros _; split; [done|by exists available]|intros _; by left].
Qed.

Lemma custom_template_finding_witness :
  ∃ evs d',
    additional_checks false templates_example countries_excerpt cities_excerpt
      (JObj record_custom_template) acme_json (disk_with acme_json "{}")
    = Ok (evs, d')
    ∧ with_type TError
        (template_english_error "custom-access-template" "access-acme")
      ∈ evs.
Proof.
  eexists _, _. split; [by vm_compute|].
  apply (proj2 (custom_template_finding false templates_example countries_excerpt
                  cities_excerpt record_custom_template acme_json
                  (disk_with acme_json "{}") _ _ "custom-access-template"
                  eq_refl (list_elem_of_here _ _))).
  split; [reflexivity|]. exists ["access-default"; "erasure-default"].
  by split.
Defined.


(** ** What makes the rule engine throw *)

(** A value that is no object with a string [address] makes
    [additional_checks] throw in either mode: line 166 calls [split] on
    whatever [json['address']] is. *)
Theorem additional_checks_needs_address (autofix : bool)
    (templates : gmap string (list string)) (countries : gmap string country)
    (cities : list city) (json : json) (f : string) (d : disk) :
  (∀ props address, json = JObj props → JS.get "address" props ≠ Some (JStr address)) →
  ∃ e, additional_checks autofix templates countries cities json f d = Throw e.
Proof.
  intros Hno.
  destruct (additional_checks autofix templates countries cities json f d)
    as [[evs d']|e] eqn:Hrun; [|by exists e].
  destruct json as [| | | | |props]; try done.
  destruct (error_findings_address _ _ _ _ _ _ _ _ _ Hrun) as [address Ha].
  by destruct (Hno props address eq_refl).
Qed.

Lemma additional_checks_needs_address_witness :
  ∃ e, additional_checks true templates_example countries_excerpt cities_excerpt
         (JArr [JStr "acme"]) acme_json (disk_with acme_json "{}") = Throw e.
Proof.
  apply additional_checks_needs_address. intros props address [=].
Defined.

(** A custom template that is present while the catalogue has no entry for
    the effective language makes [additional_checks] throw in either mode:
    lines 130 and 135 call [includes] on the missing entry.  An empty
    [templates] directory is such a catalogue. *)
Theorem additional_checks_needs_catalogue_entry (autofix : bool)
    (templates : gmap string (list string)) (countries : gmap string country)
    (cities : list city) (props : list (string * json)) (prop f : string)
    (d : disk) :
  prop ∈ custom_template_props →
  JS.truthy (JS.get prop props) = true →
  templates !! effective_language props = None →
  ∃ e, additional_checks autofix templates countries cities (JObj props) f d
       = Throw e.
Proof.
  intros Hp Hprop Hnone.
  destruct (additional_checks autofix templates countries cities (JObj props) f d)
    as [[evs d']|e] eqn:Hrun; [|by exists e].
  unfold additional_checks in Hrun. apply bind_Ok in Hrun as (st & Hst & _).
  apply run_rules_inv in Hst as (st1 & st2 & _ & _ & _ & H2 & _).
  destruct (custom_templates_entry _ _ _ _ _ _ H2 Hp Hprop) as [? ?]. congruence.
Qed.

Lemma additional_checks_needs_catalogue_entry_witness :
  ∃ e, additional_checks false ∅ countries_excerpt cities_excerpt
         (JObj record_custom_template) acme_json (disk_with acme_json "{}") = Throw e.
Proof.
  apply (additional_checks_needs_catalogue_entry false ∅ countries_excerpt
           cities_excerpt record_custom_template "custom-access-template");
    [|reflexivity|reflexivity].
  apply list_elem_of_here.
Defined.

(** ** The city pattern *)

Lemma match_digits_then_space_none s :
  SP ∉ list_ascii_of_string s → match_digits_then_space s = None.
Proof.
  induction s as [|c s IH]; simpl; [done|].
  intros [Hc Hs]%not_elem_of_cons. rewrite (IH Hs).
  case_match; [|done]. by rewrite bool_decide_eq_false_2.
Qed.

Lemma city_pattern_exec_none s :
  SP ∉ list_ascii_of_string s → city_pattern_exec s = None.
Proof.
  induction s as [|c s IH]; [done|].
  intros Hno. cbn [city_pattern_exec]. rewrite (match_digits_then_space_none _ Hno).
  apply IH. simpl in Hno. by apply not_elem_of_cons in Hno as [_ ?].
Qed.

(** The pattern of line 197 fails exactly on the texts without a space. *)
Theorem city_pattern_fails_iff_no_space (s : string) :
  city_pattern_exec s = None ↔ SP ∉ list_ascii_of_string s.
Proof.
  split; [|apply city_pattern_exec_none].
  intros Hnone Hin. apply city_pattern_exec_space in Hin as [city Hc]. congruence.
Qed.

Lemma take_all_non_whitespace s :
  Forall (λ c, is_whitespace c = false) (list_ascii_of_string s) →
  take_non_whitespace_or_space s = s.
Proof.
  induction s as [|c s IH]; simpl; [done|].
  intros [Hc Hs]%Forall_cons. unfold non_whitespace_or_space. rewrite Hc. simpl.
  by rewrite IH.
Qed.

Lemma match_digits_then_space_postcode zip city :
  Forall (λ c, is_digit c = true) (list_ascii_of_string zip) →
  SP ∉ list_ascii_of_string city →
  match_digits_then_space (zip ++ String SP city) = Some city.
Proof.
  intros Hzip Hcity. induction zip as [|c zip IH]; simpl.
  - change (String.append "" (String SP city)) with (String SP city). simpl.
    by rewrite (match_digits_then_space_none _ Hcity).
  - simpl in Hzip. apply Forall_cons in Hzip as [Hc Hzip].
    change (String.append (String c zip) (String SP city))
      with (String c (zip ++ String SP city)).
    simpl. unfold digit_or_space. rewrite Hc. simpl. by rewrite (IH Hzip).
Qed.

(** For a last line made of a postal code of digits, one space and a city
    name without whitespace, the pattern captures the city name. *)
Theorem city_pattern_postcode_city (zip city : string) :
  Forall (λ c, is_digit c = true) (list_ascii_of_string zip) →
  Forall (λ c, is_whitespace c = false) (list_ascii_of_string city) →
  city_pattern_exec (zip ++ String SP city) = Some city.
Proof.
  intros Hzip Hcity.
  assert (Hsp : SP ∉ list_ascii_of_string city).
  { intros Hin. rewrite Forall_forall in Hcity. by apply Hcity in Hin. }
  pose proof (match_digits_then_space_postcode zip city Hzip Hsp) as Hm.
  destruct (zip ++ String SP city)%string eqn:Hs; cbn [city_pattern_exec];
    rewrite Hm; by rewrite take_all_non_whitespace.
Qed.

Lemma city_pattern_postcode_city_witness :
  city_pattern_exec "10115 Berlin" = Some "Berlin".
Proof.
  apply (city_pattern_postcode_city "10115" "Berlin");
    repeat constructor.
Defined.

(** In auto-fix mode a record whose trimmed last address line is no
    country and holds no space makes [additional_checks] throw: the
    pattern of line 197 does not match and its result is read
    unguarded. *)
Theorem autofix_throws_on_last_line_without_space
    (templates : gmap string (list string)) (countries : gmap string country)
    (cities : list city) (json : list (string * json)) (address f : string)
    (d : disk) :
  JS.get "address" json = Some (JStr address) →
  isLastLineCountry countries (last_line_of address) country_name_variations = false →
  SP ∉ list_ascii_of_string (last_line_of address) →
  ∃ e, additional_checks true templates countries cities (JObj json) f d = Throw e.
Proof.
  intros Ha Hcountry Hsp.
  destruct (additional_checks true templates countries cities (JObj json) f d)
    as [[evs d']|e] eqn:Hrun; [|by exists e].
  unfold additional_checks in Hrun. apply bind_Ok in Hrun as (st & Hst & _).
  apply run_rules_inv in Hst as (st1 & st2 & lines & st3 & _ & _ & Hl & _ & H4).
  unfold split_address in Hl. rewrite Ha in Hl. injection Hl as <-.
  unfold check_last_line in H4. rewrite last_split_LF in H4.
  unfold last_line_of in Hcountry, Hsp. rewrite Hcountry in H4. simpl in H4.
  unfold guess_country in H4. by rewrite (city_pattern_exec_none _ Hsp) in H4.
Qed.

Lemma autofix_throws_on_last_line_without_space_witness :
  ∃ e, additional_checks true templates_example countries_excerpt cities_excerpt
         scenario_record acme_json (disk_with acme_json scenario_text) = Throw e.
Proof.
  apply (autofix_throws_on_last_line_without_space templates_example
           countries_excerpt cities_excerpt _
           ("Acme" ++ NL ++ "Musterstr. 1" ++ NL ++ "Berlin")%string).
  - reflexivity.
  - by vm_compute.
  - apply (bool_decide_unpack _). by vm_compute.
Defined.


(** ** The fixed copy *)

Lemma get_set_eq key v (props : list (string * json)) :
  JS.get key (JS.set key v props) = Some v.
Proof.
  induction props as [|[k w] props IH]; simpl; [by rewrite bool_decide_eq_true_2|].
  case_bool_decide as Hk; simpl.
  - by rewrite bool_decide_eq_true_2.
  - by rewrite bool_decide_eq_false_2.
Qed.

Lemma get_set_ne key key' v (props : list (string * json)) :
  key ≠ key' → JS.get key (JS.set key' v props) = JS.get key props.
Proof.
  intros Hne. induction props as [|[k w] props IH]; simpl.
  - by rewrite bool_decide_eq_false_2.
  - case_bool_decide as Hk; simpl.
    + subst k. by rewrite !bool_decide_eq_false_2.
    + by rewrite IH.
Qed.

Lemma keys_set key v (props : list (string * json)) :
  key ∈ JS.keys props → JS.keys (JS.set key v props) = JS.keys props.
Proof.
  unfold JS.keys. induction props as [|[k w] props IH]; simpl;
    [by intros ?%elem_of_nil|].
  case_bool_decide as Hk; simpl; [by subst|].
  intros [?|Hin]%elem_of_cons; [done|]. f_equal. by apply IH.
Qed.

Lemma trimStart_head s :
  match trimStart s with
  | String c _ => is_whitespace c = false
  | EmptyString => True
  end.
Proof.
  induction s as [|c s IH]; simpl; [done|].
  destruct (is_whitespace c) eqn:Hc; [done|]. simpl. done.
Qed.

Lemma trimEnd_idempotent s : trimEnd (trimEnd s) = trimEnd s.
Proof.
  induction s as [|c s IH]; simpl; [done|].
  destruct (trimEnd s) as [|c' r] eqn:Hr.
  - destruct (is_whitespace c) eqn:Hc; simpl; [done|]. by rewrite Hc.
  - cbn [trimEnd]. cbn [trimEnd] in IH. by rewrite IH.
Qed.

Lemma trimEnd_head c s :
  is_whitespace c = false → ∃ r, trimEnd (String c s) = String c r.
Proof.
  intros Hc. simpl. destruct (trimEnd s); [rewrite Hc|]; by eexists.
Qed.

(** [trim] is idempotent. *)
Lemma trim_idempotent s : trim (trim s) = trim s.
Proof.
  unfold trim. pose proof (trimStart_head s) as Hh.
  destruct (trimStart s) as [|c t]; [done|].
  destruct (trimEnd_head c t Hh) as [r Hr]. rewrite Hr.
  cbn [trimStart]. rewrite Hh, <- Hr. apply trimEnd_idempotent.
Qed.

Section FixedCopy.

Variable templates : gmap string (list string).
Variable countries : gmap string country.
Variable cities : list city.

Lemma check_trimmed_keys autofix json st key :
  JS.keys (af_json st) = JS.keys json →
  JS.keys (af_json (check_trimmed autofix json st key)) = JS.keys json.
Proof.
  intros Hk. unfold check_trimmed.
  destruct (JS.get key json) as [[| | |s| |]|] eqn:Hg; try done.
  repeat case_match; try done. simpl. rewrite keys_set; [done|].
  rewrite Hk. by eapply get_Some_in_keys.
Qed.

Lemma check_all_trimmed_keys autofix json keys st :
  JS.keys (af_json st) = JS.keys json →
  JS.keys (af_json (foldl (check_trimmed autofix json) st keys)) = JS.keys json.
Proof.
  revert st. induction keys as [|key keys IH]; intros st Hk; simpl; [done|].
  by apply IH, check_trimmed_keys.
Qed.

Lemma check_trimmed_value json st key key' :
  JS.get key (af_json st) = trimmed_value (JS.get key json) →
  JS.get key (af_json (check_trimmed true json st key'))
  = trimmed_value (JS.get key json).
Proof.
  intros Hv. unfold check_trimmed.
  destruct (JS.get key' json) as [[| | |s| |]|] eqn:Hg; try done.
  case_match; [|done]. simpl.
  destruct (decide (key = key')) as [->|Hne].
  - by rewrite get_set_eq, Hg.
  - by rewrite get_set_ne.
Qed.

Lemma check_trimmed_value_or json st key key' :
  JS.get key (af_json st) = JS.get key json
  ∨ JS.get key (af_json st) = trimmed_value (JS.get key json) →
  JS.get key (af_json (check_trimmed true json st key')) = JS.get key json
  ∨ JS.get key (af_json (check_trimmed true json st key'))
    = trimmed_value (JS.get key json).
Proof.
  intros [Hv|Hv]; [|right; by apply check_trimmed_value].
  unfold check_trimmed.
  destruct (JS.get key' json) as [[| | |s| |]|] eqn:Hg; try by left.
  case_match; [|by left]. simpl.
  destruct (decide (key = key')) as [->|Hne].
  - right. by rewrite get_set_eq, Hg.
  - left. by rewrite get_set_ne.
Qed.

Lemma check_trimmed_value_here json st key :
  JS.get key (af_json st) = JS.get key json
  ∨ JS.get key (af_json st) = trimmed_value (JS.get key json) →
  JS.get key (af_json (check_trimmed true json st key))
  = trimmed_value (JS.get key json).
Proof.
  intros Hv. unfold check_trimmed.
  destruct (JS.get key json) as [[| | |s| |]|] eqn:Hg; simpl in *;
    try (by destruct Hv).
  case_match eqn:Hs; simpl.
  - by rewrite get_set_eq.
  - apply negb_false_iff, bool_decide_eq_true in Hs.
    destruct Hv as [Hv|Hv]; rewrite Hv; congruence.
Qed.

Lemma check_all_trimmed_values json keys st :
  (∀ key, JS.get key (af_json st) = JS.get key json
          ∨ JS.get key (af_json st) = trimmed_value (JS.get key json)) →
  (∀ key, key ∈ keys →
          JS.get key (af_json (foldl (check_trimmed true json) st keys))
          = trimmed_value (JS.get key json))
  ∧ (∀ key, JS.get key (af_json (foldl (check_trimmed true json) st keys))
            = JS.get key json
            ∨ JS.get key (af_json (foldl (check_trimmed true json) st keys))
              = trimmed_value (JS.get key json)).
Proof.
  revert st. induction keys as [|k keys IH]; intros st Hor; simpl.
  - split; [by intros ? ?%elem_of_nil|done].
  - destruct (IH (check_trimmed true json st k)) as [Hin Hor'].
    { intros key. by apply check_trimmed_value_or. }
    split; [|done].
    intros key [->|Hk]%elem_of_cons; [|by apply Hin].
    clear Hin Hor'.
    assert (Hhere := check_trimmed_value_here json st k (Hor k)).
    revert Hhere. generalize (check_trimmed true json st k). clear.
    induction keys as [|k' keys IH]; intros st Hv; simpl; [done|].
    by apply IH, check_trimmed_value.
Qed.

Lemma trimmed_loop_values json st :
  af_json st = json →
  ∀ key, JS.get key (af_json (foldl (check_trimmed true json) st (JS.keys json)))
         = trimmed_value (JS.get key json).
Proof.
  intros Haf key.
  destruct (check_all_trimmed_values json (JS.keys json) st) as [Hin Hor].
  { intros k. left. by rewrite Haf. }
  destruct (JS.get key json) as [v|] eqn:Hg.
  - rewrite <- Hg. apply Hin. by eapply get_Some_in_keys.
  - destruct (Hor key) as [H|H]; by rewrite H, Hg.
Qed.

End FixedCopy.


Section FixedCopyOfRun.

Variable templates : gmap string (list string).
Variable countries : gmap string country.
Variable cities : list city.

(** A gazetteer code that is not listed finds what the table inherits:
    [countries["constructor"].name] is the name of [Object], while a code
    that is neither listed nor inherited reads [name] of [undefined]. *)
Example guessed_country_name_inherited :
  guessed_country_name countries_excerpt "constructor" = Ok "Object"
  ∧ guessed_country_name countries_excerpt "XX" = Throw (undefined_read "name").
Proof. split; by vm_compute. Qed.

Lemma guessed_country_name_origin code cn :
  guessed_country_name countries code = Ok cn →
  cn ∈ country_name_variations
  ∨ (∃ c, countries !! code = Some c ∧ name c = cn)
  ∨ (countries !! code = None ∧ code ∈ object_prototype_keys
     ∧ cn = inherited_name code).
Proof.
  unfold guessed_country_name. destruct (includes variation_countrycodes code) eqn:Hi.
  - apply includes_true in Hi. unfold variation_countrycodes in Hi.
    repeat (apply elem_of_cons in Hi as [-> | Hi]); try (by apply elem_of_nil in Hi);
      simpl; intros [= <-]; left; apply (bool_decide_unpack _); by vm_compute.
  - destruct (countries !! code) as [c|].
    + intros [= <-]. right. left. by exists c.
    + case_bool_decide; [|done]. intros [= <-]. right. by right.
Qed.

Lemma address_frame_refl json st : address_frame json st st.
Proof. by split. Qed.

Lemma address_frame_trans json st1 st2 st3 :
  address_frame json st1 st2 → address_frame json st2 st3 →
  address_frame json st1 st3.
Proof.
  intros [Hk1 Hg1] [Hk2 Hg2]. split; [by auto|].
  intros key Hne. by rewrite Hg2, Hg1.
Qed.

Lemma address_frame_push_error json e st : address_frame json st (push_error e st).
Proof. by split. Qed.

Lemma address_frame_push_autofix json e st v :
  "address" ∈ JS.keys json →
  address_frame json st (push_autofix e (set_af_json "address" v st)).
Proof.
  intros Hin. split; simpl.
  - intros Hk. rewrite keys_set; [done|]. by rewrite Hk.
  - intros key Hne. by rewrite get_set_ne.
Qed.

(** The steps after the whitespace loop touch no field but [address]. *)
Lemma address_steps_frame autofix json lines st st3 st' :
  "address" ∈ JS.keys json →
  JS.keys (af_json st) = JS.keys json →
  fix_name_in_first_line autofix json lines
    (check_name_in_address json lines
       (check_lines_trimmed autofix lines (check_line_count lines st))) = Ok st3 →
  check_last_line autofix countries cities lines st3 = Ok st' →
  JS.keys (af_json st') = JS.keys json
  ∧ ∀ key, key ≠ "address" → JS.get key (af_json st') = JS.get key (af_json st).
Proof.
  intros Hin Hk H3 H4.
  assert (Hframe : address_frame json st st'); [|destruct Hframe; by auto].
  eapply address_frame_trans; [|eapply address_frame_trans;
    [|eapply address_frame_trans; [|eapply address_frame_trans]]].
  - instantiate (1 := check_line_count lines st). unfold check_line_count.
    case_match; auto using address_frame_refl, address_frame_push_error.
  - instantiate (1 := check_lines_trimmed autofix lines (check_line_count lines st)).
    unfold check_lines_trimmed. repeat case_match;
      eauto using address_frame_refl, address_frame_push_error,
        address_frame_push_autofix, address_frame_trans.
  - instantiate (1 := check_name_in_address json lines
                        (check_lines_trimmed autofix lines (check_line_count lines st))).
    unfold check_name_in_address.
    case_match; auto using address_frame_refl, address_frame_push_error.
  - instantiate (1 := st3). unfold fix_name_in_first_line in H3.
    repeat case_match; simplify_eq;
      auto using address_frame_refl, address_frame_push_autofix.
  - unfold check_last_line in H4.
    repeat case_match; simplify_eq;
      try (apply guess_country_Ok in H4 as [->|(code & cn & a & _ & _ & ->)]);
      eauto using address_frame_refl, address_frame_push_error,
        address_frame_push_autofix, address_frame_trans.
Qed.

Lemma run_rules_before_address autofix json st :
  run_rules autofix templates countries cities json = Ok st →
  ∃ address st2 st3,
    JS.get "address" json = Some (JStr address) ∧ af_json st2 = json
    ∧ fix_name_in_first_line autofix json (split_LF address)
        (check_name_in_address json (split_LF address)
           (check_lines_trimmed autofix (split_LF address)
              (check_line_count (split_LF address)
                 (foldl (check_trimmed autofix json) (check_quality json st2)
                    (JS.keys json))))) = Ok st3
    ∧ check_last_line autofix countries cities (split_LF address) st3 = Ok st.
Proof.
  intros (st1 & st2 & lines & st3 & H1 & H2 & Hl & H3 & H4)%run_rules_inv.
  unfold split_address in Hl.
  destruct (JS.get "address" json) as [[| | |address| |]|]; try done.
  injection Hl as <-. exists address, st2, st3.
  apply check_required_elements_spec in H1.
  apply custom_templates_copy in H2 as [_ Hc2].
  repeat split; try done. rewrite Hc2. subst st1. by repeat case_match.
Qed.

Lemma run_rules_keys autofix json st :
  run_rules autofix templates countries cities json = Ok st →
  JS.keys (af_json st) = JS.keys json.
Proof.
  intros (address & st2 & st3 & Ha & H2 & H3 & H4)%run_rules_before_address.
  eapply (address_steps_frame _ _ _ _ _ _ _ _ H3 H4).
  Unshelve.
  - by eapply get_Some_in_keys.
  - apply check_all_trimmed_keys. unfold check_quality.
    by repeat case_match; simpl; rewrite H2.
Qed.

Lemma run_rules_fields json st key :
  run_rules true templates countries cities json = Ok st →
  key ≠ "address" →
  JS.get key (af_json st) = trimmed_value (JS.get key json).
Proof.
  intros (address & st2 & st3 & Ha & H2 & H3 & H4)%run_rules_before_address Hne.
  destruct (address_steps_frame _ _ _ _ _ _
              (get_Some_in_keys _ _ _ Ha)
              (check_all_trimmed_keys true json (JS.keys json) (check_quality json st2)
                 ltac:(unfold check_quality; by repeat case_match; simpl; rewrite H2))
              H3 H4) as [_ Hframe].
  rewrite (Hframe key Hne). apply trimmed_loop_values.
  unfold check_quality. by repeat case_match.
Qed.

End FixedCopyOfRun.

(** What auto-fix writes: the record it read with the same keys in the
    same order, every string field other than [address] trimmed, and every
    other field but [address] as it was. *)
Theorem written_record_fields (templates : gmap string (list string))
    (countries : gmap string country) (cities : list city)
    (json : list (string * json)) (f : string) (d : disk) (evs : list TestEvent)
    (d' : disk) :
  additional_checks true templates countries cities (JObj json) f d = Ok (evs, d') →
  ∃ fixed,
    writes d' = writes d ++ [(f, (JSON_stringify_4 (JObj fixed) ++ NL)%string)]
    ∧ JS.keys fixed = JS.keys json
    ∧ ∀ key, key ≠ "address" → JS.get key fixed = trimmed_value (JS.get key json).
Proof.
  unfold additional_checks. intros (st & Hst & [= _ <-])%bind_Ok.
  exists (af_json st). split; [done|]. split.
  - by eapply run_rules_keys.
  - intros key Hne. by eapply run_rules_fields.
Qed.

Lemma written_record_fields_witness :
  ∃ fixed,
    writes (writeFileSync acme_json
              (JSON_stringify_4
                 (JObj [("slug", JStr "acme"); ("name", JStr "Acme");
                        ("address", JStr ("Musterstr. 1" ++ NL ++ "Germany"));
                        ("web", JStr "https://acme.example")]) ++ NL)
              (disk_with acme_json "{}"))
    = writes (disk_with acme_json "{}")
      ++ [(acme_json, (JSON_stringify_4 (JObj fixed) ++ NL)%string)]
    ∧ JS.keys fixed = JS.keys record_untrimmed
    ∧ ∀ key, key ≠ "address" →
             JS.get key fixed = trimmed_value (JS.get key record_untrimmed).
Proof.
  eapply (written_record_fields templates_example countries_excerpt cities_excerpt
            record_untrimmed acme_json (disk_with acme_json "{}")).
  by vm_compute.
Defined.

(** A field that auto-fix trimmed is not reported again: a later run of
    the rules over the fixed copy lists no whitespace error for any field
    other than [address]. *)
Theorem trimmed_fields_stay_trimmed (autofix : bool)
    (templates : gmap string (list string)) (countries : gmap string country)
    (cities : list city) (json : list (string * json)) (st : checks_state)
    (f : string) (d : disk) (evs : list TestEvent) (d' : disk) (key : string) :
  run_rules true templates countries cities json = Ok st →
  additional_checks autofix templates countries cities (JObj (af_json st)) f d
  = Ok (evs, d') →
  key ≠ "address" →
  with_type TError (untrimmed_error key) ∉ evs.
Proof.
  intros Hst Hrun Hne (s & Hs & Htrim)%(untrimmed_error_returned _ _ _ _ _ _ _ _ _ _ Hrun).
  rewrite (run_rules_fields _ _ _ _ _ _ Hst Hne) in Hs.
  destruct (JS.get key json) as [[| | |s0| |]|]; simpl in Hs; simplify_eq.
  by rewrite trim_idempotent in Htrim.
Qed.

Lemma trimmed_fields_stay_trimmed_witness :
  ∃ st evs d',
    run_rules true templates_example countries_excerpt cities_excerpt record_untrimmed
    = Ok st
    ∧ additional_checks true templates_example countries_excerpt cities_excerpt
        (JObj (af_json st)) acme_json (disk_with acme_json "{}") = Ok (evs, d')
    ∧ with_type TError (untrimmed_error "web") ∉ evs.
Proof.
  eexists _, _, _. split; [by vm_compute|]. split; [by vm_compute|].
  eapply (trimmed_fields_stay_trimmed true templates_example countries_excerpt
            cities_excerpt record_untrimmed _ acme_json (disk_with acme_json "{}"));
    [by vm_compute|by vm_compute|done].
Defined.


Lemma string_app_nil_r (s : string) : (s ++ "")%string = s.
Proof.
  induction s as [|c s IH]; [done|].
  change (String c (s ++ "")%string = String c s). by rewrite IH.
Qed.

Lemma fixed_address_before_country json address st2 st3 :
  JS.get "address" json = Some (JStr address) →
  af_json st2 = json →
  fix_name_in_first_line true json (split_LF address)
    (check_name_in_address json (split_LF address)
       (check_lines_trimmed true (split_LF address)
          (check_line_count (split_LF address)
             (foldl (check_trimmed true json) (check_quality json st2)
                (JS.keys json))))) = Ok st3 →
  JS.get "address" (af_json st3) = Some (JStr (fixed_address_base json address)).
Proof.
  intros Ha H2 H3.
  pose proof (trimmed_loop_values json (check_quality json st2)) as Hloop.
  specialize (Hloop ltac:(unfold check_quality; by repeat case_match) "address").
  rewrite Ha in Hloop. simpl in Hloop.
  unfold fixed_address_base.
  destruct (split_LF_cons address) as (first & rest & Hs).
  assert (H0 : split_LF address !! 0 = Some first) by (by rewrite Hs).
  assert (Hh : head (split_LF address) = Some first) by (by rewrite Hs).
  unfold fix_name_in_first_line in H3. rewrite H0 in H3. rewrite Hh.
  change (default "" (Some first)) with first.
  destruct (strict_eq_string (JS.get "name" json) (trim first)).
  - injection H3 as <-. unfold push_autofix, set_af_json. cbn [af_json].
    by rewrite get_set_eq.
  - injection H3 as <-. unfold check_name_in_address, check_lines_trimmed,
      check_line_count.
    destruct (existsb _ (split_LF address));
      repeat case_match; unfold push_autofix, push_error, set_af_json;
      cbn [af_json]; by rewrite ?get_set_eq.
Qed.

Lemma run_rules_address (templates : gmap string (list string))
    (countries : gmap string country) (cities : list city)
    (json : list (string * json)) (address : string) (st : checks_state) :
  run_rules true templates countries cities json = Ok st →
  JS.get "address" json = Some (JStr address) →
  ∃ suffix,
    JS.get "address" (af_json st)
    = Some (JStr (fixed_address_base json address ++ suffix))
    ∧ (suffix = ""
       ∨ isLastLineCountry countries (last_line_of address) country_name_variations
         = false
         ∧ ∃ cn, suffix = (NL ++ cn)%string
                 ∧ (cn ∈ country_name_variations
                    ∨ (∃ code c, countries !! code = Some c ∧ name c = cn)
                    ∨ ∃ code, countries !! code = None
                              ∧ code ∈ object_prototype_keys
                              ∧ cn = inherited_name code)).
Proof.
  intros Hst Ha.
  apply run_rules_before_address in Hst
    as (address' & st2 & st3 & Ha' & H2 & H3 & H4).
  simplify_eq.
  pose proof (fixed_address_before_country _ _ _ _ Ha' eq_refl H3) as Hbase.
  unfold check_last_line in H4.
  rewrite last_split_LF in H4. fold (last_line_of address') in H4.
  destruct (isLastLineCountry countries (last_line_of address')
              country_name_variations) eqn:Hc; simpl in H4.
  { injection H4 as <-. exists "". rewrite string_app_nil_r. by auto. }
  apply guess_country_Ok in H4 as [->|(code & cn & a & Hcn & Hconv & ->)].
  - exists "". rewrite string_app_nil_r. by auto.
  - cbn [af_json push_error] in Hconv. rewrite Hbase in Hconv.
    injection Hconv as <-.
    exists (NL ++ cn)%string. split.
    + simpl. by rewrite get_set_eq.
    + right. split; [done|]. exists cn. split; [done|].
      apply (guessed_country_name_origin countries) in Hcn
        as [?|[(c & ? & ?)|(? & ? & ?)]]; [by left|right; left|right; right].
      * by exists code, c.
      * by exists code.
Qed.

(** The address auto-fix writes: the first line dropped when it is the
    name, else the lines trimmed when one of them is not, else the field
    trimmed; and after it, when the last line is no country and the
    gazetteer knows the city, a new line with one of the three variations,
    the official name of a listed country or, for a code that is not
    listed and names a property the table inherits, the name of that
    property's value. *)
Theorem written_address (templates : gmap string (list string))
    (countries : gmap string country) (cities : list city)
    (json : list (string * json)) (address f : string) (d : disk)
    (evs : list TestEvent) (d' : disk) :
  additional_checks true templates countries cities (JObj json) f d = Ok (evs, d') →
  JS.get "address" json = Some (JStr address) →
  ∃ fixed suffix,
    writes d' = writes d ++ [(f, (JSON_stringify_4 (JObj fixed) ++ NL)%string)]
    ∧ JS.get "address" fixed
      = Some (JStr (fixed_address_base json address ++ suffix))
    ∧ (suffix = ""
       ∨ isLastLineCountry countries (last_line_of address) country_name_variations
         = false
         ∧ ∃ cn, suffix = (NL ++ cn)%string
                 ∧ (cn ∈ country_name_variations
                    ∨ (∃ code c, countries !! code = Some c ∧ name c = cn)
                    ∨ ∃ code, countries !! code = None
                              ∧ code ∈ object_prototype_keys
                              ∧ cn = inherited_name code)).
Proof.
  unfold additional_checks. intros (st & Hst & [= _ <-])%bind_Ok Ha.
  destruct (run_rules_address _ _ _ _ _ _ Hst Ha) as (suffix & Haddr & Hsuffix).
  by exists (af_json st), suffix.
Qed.

Lemma written_address_witness :
  ∃ fixed suffix,
    writes (writeFileSync acme_json
              (JSON_stringify_4
                 (JObj (JS.set "address"
                          (JStr ("Musterstr. 1" ++ NL ++ "10115 Berlin" ++ NL
                                 ++ "Germany"))
                          scenario_record_postcode)) ++ NL)
              (disk_with acme_json "{}"))
    = writes (disk_with acme_json "{}")
      ++ [(acme_json, (JSON_stringify_4 (JObj fixed) ++ NL)%string)]
    ∧ JS.get "address" fixed
      = Some (JStr (fixed_address_base scenario_record_postcode
                      ("Acme" ++ NL ++ "Musterstr. 1" ++ NL ++ "10115 Berlin")
                    ++ suffix))
    ∧ (suffix = ""
       ∨ isLastLineCountry countries_excerpt
           (last_line_of ("Acme" ++ NL ++ "Musterstr. 1" ++ NL ++ "10115 Berlin"))
           country_name_variations = false
         ∧ ∃ cn, suffix = (NL ++ cn)%string
                 ∧ (cn ∈ country_name_variations
                    ∨ (∃ code c, countries_excerpt !! code = Some c ∧ name c = cn)
                    ∨ ∃ code, countries_excerpt !! code = None
                              ∧ code ∈ object_prototype_keys
                              ∧ cn = inherited_name code)).
Proof.
  eapply (written_address templates_example countries_excerpt cities_excerpt
            scenario_record_postcode _ acme_json (disk_with acme_json "{}"));
    [by vm_compute|reflexivity].
Defined.


(** ** The file walker *)

Lemma string_app_assoc (s t u : string) : ((s ++ t) ++ u = s ++ (t ++ u))%string.
Proof.
  induction s as [|c s IH]; [done|].
  change (String c ((s ++ t) ++ u)%string = String c (s ++ (t ++ u))%string).
  by rewrite IH.
Qed.

Lemma string_length_app (s t : string) :
  String.length (s ++ t) = String.length s + String.length t.
Proof.
  induction s as [|c s IH]; [done|].
  change (S (String.length (s ++ t)) = S (String.length s + String.length t)).
  by rewrite IH.
Qed.

Lemma substring_all (s : string) : substring 0 (String.length s) s = s.
Proof. induction s as [|c s IH]; simpl; by rewrite ?IH. Qed.

Lemma substring_app_tail (p t : string) :
  substring (String.length p) (String.length t) (p ++ t) = t.
Proof.
  induction p as [|c p IH]; [apply substring_all|].
  change (substring (String.length p) (String.length t) (p ++ t) = t). apply IH.
Qed.

Lemma substring_split (s : string) (n : nat) :
  (n ≤ String.length s)%nat →
  s = (substring 0 n s ++ substring n (String.length s - n) s)%string.
Proof.
  revert n. induction s as [|c s IH]; intros n Hn; simpl in *.
  - by destruct n.
  - destruct n as [|n]; simpl.
    + by rewrite substring_all.
    + change (String c s = String c (substring 0 n s
                                     ++ substring n (String.length s - n) s)%string).
      f_equal. apply IH. lia.
Qed.

(** [s.endsWith(suffix)] holds exactly for the texts [p ++ suffix]. *)
Lemma endsWith_spec (s suffix : string) :
  endsWith s suffix = true ↔ ∃ p, s = (p ++ suffix)%string.
Proof.
  unfold endsWith. rewrite andb_true_iff, !bool_decide_eq_true. split.
  - intros [Hlen Hsub].
    exists (substring 0 (String.length s - String.length suffix) s).
    pose proof (substring_split s (String.length s - String.length suffix)
                  ltac:(lia)) as Hs.
    replace (String.length s - (String.length s - String.length suffix))
      with (String.length suffix) in Hs by lia.
    by rewrite Hsub in Hs.
  - intros [p ->]. rewrite string_length_app. split; [lia|].
    replace (String.length p + String.length suffix - String.length suffix)
      with (String.length p) by lia.
    apply substring_app_tail.
Qed.

Lemma stringify_object_ends_with_brace props :
  ∃ q, JSON_stringify_4 (JObj props) = (q ++ "}")%string.
Proof.
  unfold JSON_stringify_4. destruct props as [|kv props]; [by exists "{"|].
  cbn [stringify]. eexists. rewrite <- !string_app_assoc. reflexivity.
Qed.

Lemma written_text_passes_newline_check props :
  newline_findings (JSON_stringify_4 (JObj props) ++ NL) = [].
Proof.
  unfold newline_findings.
  destruct (stringify_object_ends_with_brace props) as [q ->].
  rewrite (proj2 (endsWith_spec _ _)); [done|].
  exists q. by rewrite string_app_assoc.
Qed.

(** The check of lines 67-68: a text that ends with a closing brace and
    one newline gets no finding; a text that ends with the brace, or with
    the brace and two newlines, gets the newline finding, and so does
    every text that does not end with brace and newline. *)
Theorem trailing_newline_check (f : string) (events : gmap string (list TestEvent)) :
  (∀ p, check_trailing_newline f (p ++ "}" ++ NL) events = events)
  ∧ (∀ p, check_trailing_newline f (p ++ "}") events
          = add_event f newline_event events)
  ∧ (∀ p, check_trailing_newline f (p ++ "}" ++ NL ++ NL) events
          = add_event f newline_event events)
  ∧ (∀ text, (∀ p, text ≠ (p ++ "}" ++ NL)%string) →
             check_trailing_newline f text events
             = add_event f newline_event events).
Proof.
  assert (Hno : ∀ text, (∀ p, text ≠ (p ++ "}" ++ NL)%string) →
                        check_trailing_newline f text events
                        = add_event f newline_event events).
  { intros text Hno. unfold check_trailing_newline.
    destruct (endsWith text _) eqn:He; [|done].
    apply endsWith_spec in He as [p ->]. by destruct (Hno p). }
  split; [|split; [|split]]; [| | |exact Hno].
  - intros p. unfold check_trailing_newline.
    rewrite (proj2 (endsWith_spec _ _)); [done|]. by exists p.
  - intros p. apply Hno. intros q Heq.
    apply (f_equal list_ascii_of_string) in Heq.
    rewrite !list_ascii_of_string_app in Heq. simpl in Heq.
    apply (f_equal (@rev ascii)) in Heq. rewrite !rev_app_distr in Heq.
    simpl in Heq. discriminate.
  - intros p. apply Hno. intros q Heq.
    apply (f_equal list_ascii_of_string) in Heq.
    rewrite !list_ascii_of_string_app in Heq. simpl in Heq.
    apply (f_equal (@rev ascii)) in Heq. rewrite !rev_app_distr in Heq.
    simpl in Heq. discriminate.
Qed.


Lemma add_event_fresh f ev (events : gmap string (list TestEvent)) :
  events !! f = None → add_event f ev events = <[f := [ev]]> events.
Proof. intros H. unfold add_event. by rewrite H. Qed.

Lemma add_event_again f ev evs (events : gmap string (list TestEvent)) :
  add_event f ev (<[f := evs]> events) = <[f := evs ++ [ev]]> events.
Proof. unfold add_event. by rewrite lookup_insert_eq, insert_insert_eq. Qed.

Lemma validate_file_findings (parse : json_parser) (schema : schema_validator)
    (f : string) (events : gmap string (list TestEvent)) (d : disk) (text : string)
    (slug : option json) (slug_text : string) (json : json) :
  contents d !! f = Some text →
  parse text = Ok json →
  JS.member json "slug" = Ok slug →
  JS.ToString slug = Ok slug_text →
  events !! f = None →
  validate_file parse schema None f events d
  = Ok (match newline_findings text ++ schema_findings schema json
              ++ slug_findings f slug_text with
        | [] => events
        | found => <[f := found]> events
        end, d)
  ∧ ∀ (c : checks) tmp d',
      c json f d = Ok (tmp, d') →
      validate_file parse schema (Some c) f events d
      = Ok (<[f := newline_findings text ++ schema_findings schema json
                    ++ slug_findings f slug_text ++ tmp]> events, d').
Proof.
  intros Hread Hparse Hslug Htext Hfresh.
  unfold validate_file, readFileSync. rewrite Hread. cbn [mbind result_bind].
  rewrite Hparse. unfold check_parsed. rewrite Hslug. cbn [mbind result_bind].
  rewrite Htext. cbn [mbind result_bind].
  unfold check_trailing_newline, newline_findings, schema_findings, slug_findings.
  split; [|intros c tmp d' ->; cbn [mbind result_bind]];
    destruct (endsWith text _); destruct (schema json) as [errs|];
    case_bool_decide; simpl;
    rewrite ?(add_event_fresh _ _ _ Hfresh), ?add_event_again, ?Hfresh,
      ?lookup_insert_eq, ?insert_insert_eq; done.
Qed.

(** The findings of a file that parses and whose slug converts to a
    string, lines 66-85.  With [found] the findings of the newline check,
    the schema and the slug test, in this order: without a rule engine
    the file gets the entry [found], and no entry at all when [found] is
    empty, and the disk is not touched; with a rule engine that returns
    [tmp] the file gets the entry [found ++ tmp], also when that is
    empty, and the disk is the one the rule engine left. *)
Theorem validate_file_parsed (parse : json_parser) (schema : schema_validator)
    (f : string) (events : gmap string (list TestEvent)) (d : disk) (text : string)
    (slug : option json) (slug_text : string) (json : json) :
  contents d !! f = Some text →
  parse text = Ok json →
  JS.member json "slug" = Ok slug →
  JS.ToString slug = Ok slug_text →
  events !! f = None →
  validate_file parse schema None f events d
  = Ok (match newline_findings text ++ schema_findings schema json
              ++ slug_findings f slug_text with
        | [] => events
        | found => <[f := found]> events
        end, d)
  ∧ ∀ (c : checks) tmp d',
      c json f d = Ok (tmp, d') →
      validate_file parse schema (Some c) f events d
      = Ok (<[f := newline_findings text ++ schema_findings schema json
                    ++ slug_findings f slug_text ++ tmp]> events, d').
Proof. apply validate_file_findings. Qed.

Lemma validate_file_parsed_witness :
  validate_file JSON_parse any_schema None acme_json ∅
    (disk_with acme_json scenario_text)
  = Ok (∅, disk_with acme_json scenario_text).
Proof.
  eapply (proj1 (validate_file_parsed JSON_parse any_schema acme_json ∅
                   (disk_with acme_json scenario_text) scenario_text
                   (Some (JStr "acme")) "acme" scenario_record eq_refl _ eq_refl
                   eq_refl (lookup_empty _))).
  Unshelve. by vm_compute.
Defined.

(** A slug that cannot be converted to a string, an object with a
    property [toString] of its own, ends the run: line 79 throws in
    [json.slug + '.json'], nothing catches it, and the files after it are
    never looked at. *)
Theorem unconvertible_slug_ends_the_run (parse : json_parser)
    (schema : schema_validator) (additional_checks : option checks) (f : string)
    (rest : list string) (d : disk) (text : string) (slug : option json)
    (json : json) (e : js_error) :
  contents d !! f = Some text →
  parse text = Ok json →
  JS.member json "slug" = Ok slug →
  JS.ToString slug = Throw e →
  validator parse (f :: rest) schema additional_checks d = (Throw e, d).
Proof.
  intros Hread Hparse Hslug Htext. unfold validator. cbn [forEach_file].
  unfold validate_file, readFileSync. rewrite Hread. cbn [mbind result_bind].
  rewrite Hparse. unfold check_parsed. rewrite Hslug. cbn [mbind result_bind].
  by rewrite Htext.
Qed.

Lemma unconvertible_slug_ends_the_run_witness :
  validator JSON_parse [acme_json; "companies/other.json"] any_schema None
    (disk_with acme_json (dq "{'slug':{'toString':1}}" ++ NL)%string)
  = (Throw (TypeError "Cannot convert object to primitive value"),
     disk_with acme_json (dq "{'slug':{'toString':1}}" ++ NL)%string).
Proof.
  apply (unconvertible_slug_ends_the_run JSON_parse any_schema None acme_json
           ["companies/other.json"] _ (dq "{'slug':{'toString':1}}" ++ NL)%string
           (Some (JObj [("toString", JNum 1)]))
           (JObj [("slug", JObj [("toString", JNum 1)])]));
    by vm_compute.
Defined.

Lemma basename_no_slash (name : string) :
  "/"%char ∉ list_ascii_of_string name → basename name = name.
Proof.
  destruct name as [|c name]; [done|]. cbn [basename list_ascii_of_string].
  intros [Hc Hn]%not_elem_of_cons.
  rewrite bool_decide_eq_false_2 by done. by rewrite bool_decide_eq_false_2.
Qed.

Lemma basename_dir (dir name : string) :
  "/"%char ∉ list_ascii_of_string name →
  basename (dir ++ String "/" name) = name.
Proof.
  intros Hn. induction dir as [|c dir IH].
  - change (basename (String "/" name) = name). cbn [basename].
    rewrite bool_decide_eq_true_2 by done. by apply basename_no_slash.
  - change (basename (String c (dir ++ String "/" name)) = name).
    cbn [basename]. case_bool_decide; [done|].
    rewrite bool_decide_eq_true_2; [done|].
    rewrite list_ascii_of_string_app. apply elem_of_app. right. simpl. by left.
Qed.

Lemma slug_findings_named (dir name slug : string) :
  "/"%char ∉ list_ascii_of_string name →
  slug_findings (dir ++ String "/" (name ++ ".json")) slug
  = if bool_decide (slug = name) then []
    else [slug_event (dir ++ String "/" (name ++ ".json")) slug].
Proof.
  intros Hn. unfold slug_findings. rewrite basename_dir.
  - case_bool_decide as Heq.
    + apply string_app_inv_tail in Heq. by rewrite bool_decide_eq_true_2.
    + rewrite bool_decide_eq_false_2; [done|]. by intros ->.
  - rewrite list_ascii_of_string_app. intros [?|Hin]%elem_of_app; [done|].
    simpl in Hin. by repeat (apply elem_of_cons in Hin as [?|Hin]; [done|]);
      apply elem_of_nil in Hin.
Qed.

Lemma slug_event_is_no_other_finding f slug text schema json :
  slug_event f slug ∉ newline_findings text ++ schema_findings schema json.
Proof.
  unfold newline_findings, schema_findings.
  intros [Hin|Hin]%elem_of_app.
  - destruct (endsWith text _); [by apply elem_of_nil in Hin|].
    apply list_elem_of_singleton in Hin. apply (f_equal msg) in Hin.
    vm_compute in Hin. congruence.
  - destruct (schema json); [|by apply elem_of_nil in Hin].
    apply list_elem_of_singleton in Hin. apply (f_equal msg) in Hin.
    vm_compute in Hin. congruence.
Qed.

(** The slug test of lines 79-81 for a file [dir/name.json] that parses
    and whose slug converts to the string [slug_text]: the findings of
    the file hold the slug finding exactly when [slug_text] is not
    [name]; with a rule engine the finding is there as well. *)
Theorem slug_test_on_named_file (parse : json_parser) (schema : schema_validator)
    (dir name : string) (events : gmap string (list TestEvent)) (d : disk)
    (text : string) (slug : option json) (json : json) (slug_text : string) :
  "/"%char ∉ list_ascii_of_string name →
  contents d !! (dir ++ String "/" (name ++ ".json"))%string = Some text →
  parse text = Ok json →
  JS.member json "slug" = Ok slug →
  JS.ToString slug = Ok slug_text →
  events !! (dir ++ String "/" (name ++ ".json"))%string = None →
  (∃ events',
     validate_file parse schema None (dir ++ String "/" (name ++ ".json"))%string
       events d = Ok (events', d)
     ∧ (slug_event (dir ++ String "/" (name ++ ".json"))%string slug_text
        ∈ default [] (events' !! (dir ++ String "/" (name ++ ".json"))%string)
        ↔ slug_text ≠ name))
  ∧ ∀ (c : checks) tmp d',
      c json (dir ++ String "/" (name ++ ".json"))%string d = Ok (tmp, d') →
      ∃ events',
        validate_file parse schema (Some c)
          (dir ++ String "/" (name ++ ".json"))%string events d = Ok (events', d')
        ∧ (slug_text ≠ name →
           slug_event (dir ++ String "/" (name ++ ".json"))%string slug_text
           ∈ default [] (events' !! (dir ++ String "/" (name ++ ".json"))%string)).
Proof.
  intros Hn Hread Hparse Hslug Htext Hfresh.
  set (f := (dir ++ String "/" (name ++ ".json"))%string) in *.
  destruct (validate_file_findings parse schema f events d text slug slug_text json
              Hread Hparse Hslug Htext Hfresh) as [Hnone Hsome].
  pose proof (slug_event_is_no_other_finding f slug_text text schema json) as Hother.
  pose proof (slug_findings_named dir name slug_text Hn) as Hfind. fold f in Hfind.
  split.
  - eexists. split; [exact Hnone|].
    match goal with
    | |- context [default [] (?m !! f)] =>
        assert (default [] (m !! f)
                = newline_findings text ++ schema_findings schema json
                  ++ slug_findings f slug_text) as ->
    end.
    { destruct (newline_findings text ++ _ ++ _);
        [by rewrite Hfresh|by rewrite lookup_insert_eq]. }
    rewrite app_assoc, Hfind. rewrite elem_of_app.
    case_bool_decide as Heq.
    + split; [intros [?|?%elem_of_nil]; done|done].
    + split; [done|]. intros _. right. by apply list_elem_of_singleton.
  - intros c tmp d' Hc. eexists. split; [by apply Hsome|].
    intros Hne. rewrite lookup_insert_eq. cbn [from_option id].
    rewrite Hfind, bool_decide_eq_false_2 by done.
    apply elem_of_app. right. apply elem_of_app. right. apply elem_of_app. left.
    by apply list_elem_of_singleton.
Qed.

Lemma slug_test_on_named_file_witness :
  ∃ events',
    validate_file JSON_parse any_schema None "companies/acme.json" ∅
      (disk_with acme_json scenario_text)
    = Ok (events', disk_with acme_json scenario_text)
    ∧ (slug_event "companies/acme.json" "acme"
       ∈ default [] (events' !! "companies/acme.json")
       ↔ "acme" ≠ "acme").
Proof.
  apply (proj1 (slug_test_on_named_file JSON_parse any_schema "companies" "acme" ∅
                  (disk_with acme_json scenario_text) scenario_text
                  (Some (JStr "acme")) scenario_record "acme"
                  ltac:(apply (bool_decide_unpack _); by vm_compute)
                  eq_refl ltac:(by vm_compute) eq_refl eq_refl (lookup_empty _))).
Defined.

(** A file that holds the JSON text [null], or any text that parses to
    [null], ends the run: reading [json.slug] on line 79 throws, nothing
    catches it, and the files after it are never looked at. *)
Theorem null_file_ends_the_run (parse : json_parser)
    (schema : schema_validator)
    (additional_checks : option checks) (f : string) (rest : list string)
    (d : disk) (text : string) :
  contents d !! f = Some text →
  parse text = Ok JNull →
  validator parse (f :: rest) schema additional_checks d
  = (Throw (TypeError "Cannot read properties of null (reading 'slug')"), d).
Proof.
  intros Hread Hparse. unfold validator. cbn [forEach_file].
  unfold validate_file, readFileSync. rewrite Hread. cbn [mbind result_bind].
  by rewrite Hparse.
Qed.

Lemma null_file_ends_the_run_witness :
  validator JSON_parse [acme_json; "companies/other.json"] any_schema None
    (disk_with acme_json "null")
  = (Throw (TypeError "Cannot read properties of null (reading 'slug')"),
     disk_with acme_json "null").
Proof.
  apply (null_file_ends_the_run JSON_parse any_schema None acme_json
           ["companies/other.json"]
           (disk_with acme_json "null") "null"); [reflexivity|by vm_compute].
Defined.


Lemma additional_checks_writes_own_file autofix templates countries cities :
  writes_own_file (additional_checks autofix templates countries cities).
Proof.
  intros json f d evs d'. unfold additional_checks.
  destruct json as [| | | | |props]; try done.
  intros (st & _ & [= _ <-])%bind_Ok. unfold save_fixed.
  case_match; [right; by eexists|by left].
Qed.

Lemma validate_file_disk (parse : json_parser) schema additional_checks f events d
    events' d' :
  (∀ c, additional_checks = Some c → writes_own_file c) →
  validate_file parse schema additional_checks f events d = Ok (events', d') →
  d' = d
  ∨ ∃ fixed, d' = writeFileSync f (JSON_stringify_4 (JObj fixed) ++ NL)%string d.
Proof.
  intros Hown. unfold validate_file.
  intros (text & _ & H)%bind_Ok.
  destruct (parse text) as [json|err]; [|left; by simplify_eq].
  unfold check_parsed in H. apply bind_Ok in H as (slug & _ & H).
    apply bind_Ok in H as (slug_text & _ & H).
  destruct additional_checks as [c|]; [|left; by simplify_eq].
  apply bind_Ok in H as ([tmp d1] & Hc & [= _ <-]). by eapply Hown.
Qed.

Lemma forEach_file_disk (parse : json_parser) schema additional_checks files
    events d :
  (∀ c, additional_checks = Some c → writes_own_file c) →
  ∃ ws,
    writes (forEach_file parse schema additional_checks files events d).2 = writes d ++ ws
    ∧ Forall (λ w, w.1 ∈ files ∧ newline_findings w.2 = []) ws
    ∧ ∀ g, g ∉ files →
           contents (forEach_file parse schema additional_checks files events d).2 !! g
           = contents d !! g.
Proof.
  intros Hown. revert events d.
  induction files as [|f rest IH]; intros events d; simpl.
  - exists []. by rewrite app_nil_r.
  - destruct (validate_file parse schema additional_checks f events d)
      as [[events' d1]|e] eqn:Hv; simpl.
    2: { exists []. by rewrite app_nil_r. }
    destruct (IH events' d1) as (ws & Hw & Hall & Hframe).
    destruct (validate_file_disk _ _ _ _ _ _ _ _ Hown Hv) as [->|[fixed ->]].
    + exists ws. split; [done|]. split.
      * eapply Forall_impl; [exact Hall|]. intros w [? ?]. split; [by right|done].
      * intros g [_ Hg]%not_elem_of_cons. by apply Hframe.
    + eexists (_ :: ws). split; [|split].
      * rewrite Hw. simpl. by rewrite <- app_assoc.
      * constructor.
        -- split; [by left|]. apply written_text_passes_newline_check.
        -- eapply Forall_impl; [exact Hall|]. intros w [? ?]. split; [by right|done].
      * intros g [Hne Hg]%not_elem_of_cons. rewrite (Hframe g Hg). simpl.
        by rewrite lookup_insert_ne.
Qed.

(** What a whole run writes: only files of the companies listing, each
    with a text that ends with a closing brace and one newline, so that the
    next run finds no newline fault in it; the supervisory authorities and
    every other path keep their content. *)
Theorem run_writes_only_company_files (parse : json_parser) (autofix : bool)
    (templates : gmap string (list string)) (countries : gmap string country)
    (cities : list city) (cdb_schema adb_schema : schema_validator)
    (companies supervisory_authorities : list string) (d : disk) :
  ∃ ws,
    writes (test_records parse autofix templates countries cities cdb_schema adb_schema
              companies supervisory_authorities d).2 = writes d ++ ws
    ∧ Forall (λ w, w.1 ∈ companies ∧ newline_findings w.2 = []) ws
    ∧ ∀ g, g ∉ companies →
           contents (test_records parse autofix templates countries cities cdb_schema
                       adb_schema companies supervisory_authorities d).2 !! g
           = contents d !! g.
Proof.
  unfold test_records, validator.
  destruct (forEach_file_disk parse cdb_schema
              (Some (additional_checks autofix templates countries cities))
              companies ∅ d) as (ws & Hw & Hall & Hframe).
  { intros c [= <-]. apply additional_checks_writes_own_file. }
  destruct (forEach_file parse cdb_schema _ companies ∅ d) as [[events|e] d1]; simpl in *;
    [|by exists ws].
  pose proof (forEach_file_read_only parse adb_schema None supervisory_authorities ∅ d1
                ltac:(by intros c [=])) as Hro.
  destruct (forEach_file parse adb_schema None supervisory_authorities ∅ d1)
    as [[events'|e] d2]; simpl in *; subst d2; by exists ws.
Qed.

Lemma validate_file_events_frame (parse : json_parser) schema additional_checks f
    events d events' d' g :
  validate_file parse schema additional_checks f events d = Ok (events', d') →
  g ≠ f → events' !! g = events !! g.
Proof.
  intros H Hne. unfold validate_file in H.
  apply bind_Ok in H as (text & _ & H).
  assert (Hnl : check_trailing_newline f text events !! g = events !! g).
  { unfold check_trailing_newline, add_event.
    destruct (negb _); [|done]. by rewrite lookup_insert_ne. }
  destruct (parse text) as [json|err].
  - unfold check_parsed in H. apply bind_Ok in H as (slug & _ & H).
    apply bind_Ok in H as (slug_text & _ & H).
    rewrite <- Hnl.
    set (ev1 := match schema json with Some _ => _ | None => _ end) in H.
    assert (H1 : ev1 !! g = check_trailing_newline f text events !! g).
    { unfold ev1, add_event. destruct (schema json); [|done].
      by rewrite lookup_insert_ne. }
    rewrite <- H1.
    set (ev2 := if negb _ then _ else _) in H.
    assert (H2 : ev2 !! g = ev1 !! g).
    { unfold ev2, add_event. destruct (negb _); [|done].
      by rewrite lookup_insert_ne. }
    rewrite <- H2.
    destruct additional_checks as [c|]; [|by simplify_eq].
    apply bind_Ok in H as ([tmp d1] & _ & [= <- _]). by rewrite lookup_insert_ne.
  - injection H as <- _. unfold add_event. by rewrite lookup_insert_ne, Hnl.
Qed.

Lemma forEach_file_events_frame (parse : json_parser) schema additional_checks files
    events d events' g :
  (forEach_file parse schema additional_checks files events d).1 = Ok events' →
  g ∉ files → events' !! g = events !! g.
Proof.
  revert events d. induction files as [|f rest IH]; intros events d; simpl.
  - by intros [= <-].
  - destruct (validate_file parse schema additional_checks f events d)
      as [[events1 d1]|e] eqn:Hv; simpl; [|done].
    intros Hrest [Hne Hg]%not_elem_of_cons.
    rewrite (IH _ _ Hrest Hg). by eapply validate_file_events_frame.
Qed.

(** [validator] files its findings under the paths of its listing and
    under no other. *)
Theorem findings_only_for_listed_files (parse : json_parser) (files : list string)
    (schema : schema_validator) (additional_checks : option checks) (d : disk)
    (events : gmap string (list TestEvent)) (g : string) :
  (validator parse files schema additional_checks d).1 = Ok events →
  is_Some (events !! g) → g ∈ files.
Proof.
  intros Hrun [evs Hg]. destruct (decide (g ∈ files)) as [|Hnot]; [done|].
  unfold validator in Hrun.
  rewrite (forEach_file_events_frame _ _ _ _ _ _ _ _ Hrun Hnot) in Hg. done.
Qed.

Lemma findings_only_for_listed_files_witness :
  acme_json ∈ [acme_json].
Proof.
  eapply (findings_only_for_listed_files JSON_parse [acme_json] any_schema
            (Some (additional_checks false templates_example countries_excerpt
                     cities_excerpt))
            (disk_with acme_json scenario_text)).
  - by vm_compute.
  - vm_compute. by eexists.
Defined.


(** ** The report *)

Lemma finding_has_message r e : finding_of r e → msg e ≠ "".
Proof. by intros []. Qed.

Lemma run_rules_findings autofix templates countries cities json st :
  run_rules autofix templates countries cities json = Ok st →
  Forall (λ e, msg e ≠ "") (errors st) ∧ Forall (λ e, msg e ≠ "") (autofixes st).
Proof.
  intros (st1 & st2 & lines & st3 & H1 & H2 & _ & H3 & H4)%run_rules_inv.
  assert (Hadds : adds (λ e, msg e ≠ "")
                    {| af_json := json; errors := []; autofixes := [] |} st).
  { eapply adds_trans.
    - eapply adds_mono; [|by eapply check_required_elements_adds].
      intros e. apply finding_has_message.
    - eapply adds_mono; [|by eapply rules_after_first_adds].
      intros e (r & _ & He). by eapply finding_has_message. }
  destruct Hadds as (es & afs & -> & -> & Hes & Hafs). by simpl.
Qed.

Lemma additional_checks_printable autofix templates countries cities :
  returns_printable (Some (additional_checks autofix templates countries cities)).
Proof.
  intros c [= <-] json f d evs d'. unfold additional_checks.
  destruct json as [| | | | |props]; try done.
  intros (st & [Herr Haf]%run_rules_findings & [= <- _])%bind_Ok.
  unfold returnevents. apply Forall_app. split; apply Forall_map.
  - eapply Forall_impl; [exact Haf|]. intros e He. by right.
  - eapply Forall_impl; [exact Herr|]. intros e He. by left.
Qed.

Lemma add_event_printable f ev events :
  printable ev →
  map_Forall (λ _ evs, Forall printable evs) events →
  map_Forall (λ _ evs, Forall printable evs) (add_event f ev events).
Proof.
  intros Hev Hall. unfold add_event. apply map_Forall_insert_2; [|done].
  apply Forall_app. split; [|by constructor].
  destruct (events !! f) as [evs|] eqn:Hf; simpl; [by eapply Hall|constructor].
Qed.

Lemma validate_file_printable (parse : json_parser) schema additional_checks f events d events' d' :
  returns_printable additional_checks →
  map_Forall (λ _ evs, Forall printable evs) events →
  validate_file parse schema additional_checks f events d = Ok (events', d') →
  map_Forall (λ _ evs, Forall printable evs) events'.
Proof.
  intros Hc Hall. unfold validate_file.
  intros (text & _ & H)%bind_Ok.
  assert (Hnl : map_Forall (λ _ evs, Forall printable evs)
                  (check_trailing_newline f text events)).
  { unfold check_trailing_newline. destruct (negb _); [|done].
    apply add_event_printable; [by left|done]. }
  destruct (parse text) as [json|err].
  - unfold check_parsed in H. apply bind_Ok in H as (slug & _ & H).
    apply bind_Ok in H as (slug_text & _ & H).
    set (ev1 := match schema json with Some _ => _ | None => _ end) in H.
    assert (H1 : map_Forall (λ _ evs, Forall printable evs) ev1).
    { unfold ev1. destruct (schema json); [|done].
      apply add_event_printable; [by left|done]. }
    set (ev2 := if negb _ then _ else _) in H.
    assert (H2 : map_Forall (λ _ evs, Forall printable evs) ev2).
    { unfold ev2. destruct (negb _); [|done].
      apply add_event_printable; [by left|done]. }
    destruct additional_checks as [c|]; [|by simplify_eq].
    apply bind_Ok in H as ([tmp d1] & Htmp & [= <- _]).
    apply map_Forall_insert_2; [|done].
    pose proof (Hc c eq_refl _ _ _ _ _ Htmp) as Hp.
    destruct (ev2 !! f) as [evs|] eqn:Hf; [|done].
    apply Forall_app. split; [by eapply H2|done].
  - injection H as <- _. apply add_event_printable; [by left|done].
Qed.

Lemma forEach_file_printable (parse : json_parser) schema additional_checks files events d events' :
  returns_printable additional_checks →
  map_Forall (λ _ evs, Forall printable evs) events →
  (forEach_file parse schema additional_checks files events d).1 = Ok events' →
  map_Forall (λ _ evs, Forall printable evs) events'.
Proof.
  intros Hc. revert events d.
  induction files as [|f rest IH]; intros events d Hall; simpl.
  - by intros [= <-].
  - destruct (validate_file parse schema additional_checks f events d)
      as [[events1 d1]|e] eqn:Hv; simpl; [|done].
    apply IH. by eapply validate_file_printable.
Qed.

Lemma print_event_printable e :
  printable e → header_or_message (print_event e).
Proof.
  intros Hp. right. unfold print_event, keys_length.
  assert (Hm : msg e ≠ "") by (by destruct Hp as [[? _]|[? _]]).
  assert (Ht : is_Some (type e)) by (destruct Hp as [[_ ->]|[_ ->]]; by eexists).
  rewrite (bool_decide_eq_false_2 _ Hm). destruct Ht as [t Ht]. rewrite Ht.
  rewrite bool_decide_eq_false_2 by (simpl; lia). simpl.
  do 2 eexists. split; [done|]. split; [done|]. simpl. by eexists.
Qed.

Lemma print_printable order events :
  map_Forall (λ _ evs, Forall printable evs) events →
  Forall header_or_message (print order events).
Proof.
  intros Hall. unfold print.
  induction order as [|file order IH]; simpl; [constructor|].
  apply Forall_app. split; [|done]. unfold print_file.
  destruct (events !! file) as [[|e evs]|] eqn:Hf; try constructor.
  - left. by eexists.
  - apply Forall_map. eapply Forall_impl; [exact (Hall _ _ Hf)|].
    apply print_event_printable.
Qed.

(** Every call of [console.error] a run makes is a header line or a
    message followed by the rest of the finding, its [type] included: the
    branch of [print] for a finding with nothing but a message and the
    branch for a finding without message never run. *)
Theorem run_prints_header_or_message (parse : json_parser) (autofix : bool)
    (templates : gmap string (list string)) (countries : gmap string country)
    (cities : list city) (cdb_schema adb_schema : schema_validator)
    (companies supervisory_authorities : list string) (d : disk) :
  Forall header_or_message
    (test_records_output parse autofix templates countries cities cdb_schema adb_schema
       companies supervisory_authorities d).1.
Proof.
  unfold test_records_output, validator.
  pose proof (forEach_file_printable parse cdb_schema
                (Some (additional_checks autofix templates countries cities))
                companies ∅ d) as H1.
  destruct (forEach_file parse cdb_schema _ companies ∅ d) as [[events|e] d1]; simpl in *;
    [|constructor].
  specialize (H1 events (additional_checks_printable _ _ _ _)
                (map_Forall_empty _) eq_refl).
  pose proof (forEach_file_printable parse adb_schema None supervisory_authorities ∅
                d1)
    as H2.
  destruct (forEach_file parse adb_schema None supervisory_authorities ∅ d1)
    as [[events'|e] d2]; simpl in *.
  - apply Forall_app. split; [by apply print_printable|].
    apply print_printable, H2; [by intros c [=]|apply map_Forall_empty|done].
  - by apply print_printable.
Qed.

(** [print] is silent exactly when no file it visits has a finding. *)
Theorem print_silent_iff (order : list string)
    (events : gmap string (list TestEvent)) :
  print order events = []
  ↔ ∀ file, file ∈ order → events !! file = None ∨ events !! file = Some [].
Proof.
  unfold print. induction order as [|file order IH]; simpl.
  - split; [|done]. intros _ f Hf. by apply elem_of_nil in Hf.
  - rewrite app_nil, IH. unfold print_file. split.
    + intros [Hfile Hrest] f [Heq|Hf]%elem_of_cons; [|by apply Hrest].
      rewrite Heq. destruct (events !! file) as [[|e evs]|]; by eauto.
    + intros H. split; [|intros f Hf; apply H; by right].
      destruct (H file ltac:(by left)) as [->| ->]; done.
Qed.


(** ** The [idn-email] format *)

Lemma after_non_whitespace_plus_iff s r :
  r ∈ after_non_whitespace_plus s
  ↔ ∃ a, a ≠ "" ∧ no_whitespace a ∧ s = (a ++ r)%string.
Proof.
  unfold no_whitespace. induction s as [|c s IH]; simpl.
  - split; [by intros ?%elem_of_nil|]. intros ([|c a] & Ha & _ & Hs); done.
  - destruct (is_whitespace c) eqn:Hc.
    + split; [by intros ?%elem_of_nil|].
      intros ([|c' a] & Ha & Hnw & Hs); [done|].
      change (String c s = String c' (a ++ r)%string) in Hs.
      injection Hs as <- _. apply Forall_cons in Hnw as [Hnw _]. congruence.
    + rewrite elem_of_cons, IH. split.
      * intros [->|(a & Ha & Hnw & ->)].
        -- exists (String c ""). repeat split; [done|by repeat constructor].
        -- exists (String c a). repeat split; [done|by constructor].
      * intros ([|c' a] & Ha & Hnw & Hs); [done|].
        change (String c s = String c' (a ++ r)%string) in Hs.
        injection Hs as <- ->. apply Forall_cons in Hnw as [_ Hnw].
        destruct a as [|c2 a]; [by left|]. right. by exists (String c2 a).
Qed.

Lemma after_char_iff c s r : r ∈ after_char c s ↔ s = String c r.
Proof.
  destruct s as [|c' s]; simpl; [by split; [intros ?%elem_of_nil|]|].
  case_bool_decide as Hc.
  - rewrite list_elem_of_singleton. split; [by intros ->; subst|by intros [= _ ->]].
  - split; [by intros ?%elem_of_nil|]. by intros [= -> _].
Qed.

(** The [idn-email] format accepts exactly the texts made of a local
    part, an at sign, a domain part, a dot and a last part, each part
    non-empty and without whitespace.  The parts may themselves hold at
    signs and dots. *)
Theorem idn_email_iff (s : string) :
  idn_email s = true
  ↔ ∃ a b c,
      s = (a ++ "@" ++ b ++ "." ++ c)%string
      ∧ a ≠ "" ∧ b ≠ "" ∧ c ≠ ""
      ∧ no_whitespace a ∧ no_whitespace b ∧ no_whitespace c.
Proof.
  unfold idn_email. cbv zeta. rewrite bool_decide_eq_true. split.
  - intros (r4 & (c & Hc & Hnc & ->)%after_non_whitespace_plus_iff
            & (r3 & ->%after_char_iff
               & (r2 & (b & Hb & Hnb & ->)%after_non_whitespace_plus_iff
                  & (r1 & ->%after_char_iff
                     & (a & Ha & Hna & ->)%after_non_whitespace_plus_iff
                    )%list_elem_of_bind)%list_elem_of_bind
              )%list_elem_of_bind)%list_elem_of_bind.
    exists a, b, c. by rewrite string_app_nil_r.
  - intros (a & b & c & -> & Ha & Hb & Hc & Hna & Hnb & Hnc).
    apply list_elem_of_bind. exists c. split.
    { apply after_non_whitespace_plus_iff. exists c. by rewrite string_app_nil_r. }
    apply list_elem_of_bind. exists (String "." c). split.
    { by apply after_char_iff. }
    apply list_elem_of_bind. exists (b ++ "." ++ c)%string. split.
    { apply after_non_whitespace_plus_iff. by exists b. }
    apply list_elem_of_bind. exists (String "@" (b ++ "." ++ c))%string. split.
    { by apply after_char_iff. }
    apply after_non_whitespace_plus_iff. by exists a.
Qed.

(** ** The template catalogue *)

Lemma list_ascii_of_string_cons c s :
  list_ascii_of_string (String c s) = c :: list_ascii_of_string s.
Proof. done. Qed.

Lemma free_of_cons c c' s : free_of c (String c' s) ↔ c ≠ c' ∧ free_of c s.
Proof. unfold free_of. rewrite list_ascii_of_string_cons. apply not_elem_of_cons. Qed.

Lemma free_of_app c s t : free_of c (s ++ t)%string ↔ free_of c s ∧ free_of c t.
Proof.
  unfold free_of. rewrite list_ascii_of_string_app. apply not_elem_of_app.
Qed.

Lemma replace_first_suffix s :
  free_of "." s → replace_first ".txt" "" (s ++ ".txt")%string = s.
Proof.
  induction s as [|c s IH]; [done|].
  intros [Hc Hs]%free_of_cons.
  change (String c s ++ ".txt")%string with (String c (s ++ ".txt"))%string.
  cbn [replace_first String.prefix].
  destruct (ascii_dec "." c) as [Heq|_]; [done|]. by rewrite IH.
Qed.

Lemma split_on_free sep s : free_of sep s → split_on sep s = [s].
Proof.
  induction s as [|c s IH]; [done|].
  intros [Hc Hs]%free_of_cons. simpl.
  rewrite bool_decide_eq_false_2 by done. by rewrite IH.
Qed.

Lemma split_on_app sep s t :
  free_of sep s →
  split_on sep (s ++ String sep t)%string = s :: split_on sep t.
Proof.
  induction s as [|c s IH].
  - intros _. change ("" ++ String sep t)%string with (String sep t).
    simpl. by rewrite bool_decide_eq_true_2.
  - intros [Hc Hs]%free_of_cons.
    change (String c s ++ String sep t)%string
      with (String c (s ++ String sep t))%string.
    simpl. rewrite bool_decide_eq_false_2 by done. by rewrite IH.
Qed.

Lemma template_entry_parts lang name tail :
  free_of "/" lang → free_of "/" name →
  free_of "." lang → free_of "." name → free_of "." tail →
  tail = "" ∨ (∃ t, tail = String "/" t) →
  template_entry (lang ++ "/" ++ name ++ tail ++ ".txt")%string = (lang, Some name).
Proof.
  intros Hl Hn Hdl Hdn Hdt Htail. unfold template_entry.
  replace (lang ++ "/" ++ name ++ tail ++ ".txt")%string
    with ((lang ++ "/" ++ name ++ tail) ++ ".txt")%string
    by (by rewrite !string_app_assoc).
  rewrite replace_first_suffix.
  2: { rewrite !free_of_app. repeat split; try done.
       apply free_of_cons. split; [done|]. by intros ?%elem_of_nil. }
  change ("/" ++ name ++ tail)%string with (String "/" (name ++ tail))%string.
  rewrite split_on_app by done.
  destruct Htail as [->|[t ->]].
  - rewrite string_app_nil_r. by rewrite split_on_free.
  - by rewrite split_on_app.
Qed.

(** The file [lang/name.txt] is filed under [lang] with the name [name],
    for a language and a name that hold neither slash nor dot. *)
Theorem template_entry_of_file (lang name : string) :
  free_of "/" lang → free_of "/" name → free_of "." lang → free_of "." name →
  template_entry (lang ++ "/" ++ name ++ ".txt")%string = (lang, Some name).
Proof.
  intros Hl Hn Hdl Hdn.
  apply (template_entry_parts lang name ""); try done; [|by left].
  by intros ?%elem_of_nil.
Qed.

Lemma template_entry_of_file_witness :
  template_entry "de/access-default.txt" = ("de", Some "access-default").
Proof.
  apply (template_entry_of_file "de" "access-default");
    unfold free_of; apply (bool_decide_unpack _); by vm_compute.
Defined.

(** A file in a directory below that of a language is filed under the
    name of that directory: the name of the file itself is lost. *)
Theorem template_entry_of_nested_file (lang dir rest : string) :
  free_of "/" lang → free_of "/" dir →
  free_of "." lang → free_of "." dir → free_of "." rest →
  template_entry (lang ++ "/" ++ dir ++ "/" ++ rest ++ ".txt")%string
  = (lang, Some dir).
Proof.
  intros Hl Hd Hdl Hdd Hdr.
  change (lang ++ "/" ++ dir ++ "/" ++ rest ++ ".txt")%string
    with (lang ++ "/" ++ dir ++ String "/" (rest ++ ".txt"))%string.
  replace (String "/" (rest ++ ".txt"))%string
    with (String "/" rest ++ ".txt")%string by done.
  apply template_entry_parts; try done; [|by right; eexists].
  apply free_of_cons. by split.
Qed.

Lemma template_entry_of_nested_file_witness :
  template_entry "de/old/access-default.txt" = ("de", Some "old").
Proof.
  apply (template_entry_of_nested_file "de" "old" "access-default");
    unfold free_of; apply (bool_decide_unpack _); by vm_compute.
Defined.

Lemma add_template_Ok cur acc acc' :
  add_template cur acc = Ok acc' →
  ((template_entry cur).1 ∉ object_prototype_keys
   ∨ is_Some (acc !! (template_entry cur).1))
  ∧ acc' = <[(template_entry cur).1 :=
               default [] (acc !! (template_entry cur).1)
               ++ [(template_entry cur).2]]> acc.
Proof.
  unfold add_template.
  destruct (acc !! (template_entry cur).1) as [names|] eqn:Hl; simpl.
  - intros [= <-]. split; [right; by eexists|done].
  - case_bool_decide; [done|]. intros [= <-]. split; [by left|done].
Qed.

Lemma for_of_add_template paths acc m :
  (∀ lang names, acc !! lang = Some names → names ≠ []) →
  for_of paths add_template acc = Ok m →
  ∀ lang,
    m !! lang
    = match default [] (acc !! lang) ++ names_of lang paths with
      | [] => None
      | names => Some names
      end.
Proof.
  revert acc. induction paths as [|cur rest IH]; intros acc Hacc; simpl.
  - intros [= <-] lang. unfold names_of. simpl. rewrite app_nil_r.
    destruct (acc !! lang) as [[|n ns]|] eqn:Hl; try done. by destruct (Hacc _ _ Hl).
  - intros (acc1 & [_ ->]%add_template_Ok & Hrest)%bind_Ok lang.
    assert (Hacc1 : ∀ l ns,
               <[(template_entry cur).1 :=
                   default [] (acc !! (template_entry cur).1)
                   ++ [(template_entry cur).2]]> acc !! l = Some ns → ns ≠ []).
    { intros l ns. destruct (decide (l = (template_entry cur).1)) as [->|Hne].
      - rewrite lookup_insert_eq. intros [= <-] [_ ?]%app_eq_nil. done.
      - rewrite lookup_insert_ne by done. apply Hacc. }
    rewrite (IH _ Hacc1 Hrest lang).
    unfold names_of. simpl. rewrite filter_cons.
    destruct (decide ((template_entry cur).1 = lang)) as [<-|Hne].
    + rewrite lookup_insert_eq. simpl. by rewrite <- app_assoc.
    + by rewrite lookup_insert_ne.
Qed.

(** The catalogue, when it is built, maps a language to the names of the
    listed files of that language, in the order of the listing and with
    their repetitions; a language without file has no entry. *)
Theorem build_templates_groups (paths : list string)
    (templates : gmap string (list (option string))) (lang : string) :
  build_templates paths = Ok templates →
  templates !! lang
  = match names_of lang paths with [] => None | names => Some names end.
Proof.
  intros H. unfold build_templates in H.
  eapply for_of_add_template in H; [|intros l ns; by rewrite lookup_empty].
  by rewrite H, lookup_empty.
Qed.

Lemma build_templates_groups_witness :
  (∃ templates, build_templates ["de/access.txt"; "en/access.txt"; "de/erasure.txt"]
                = Ok templates
                ∧ templates !! "de" = Some [Some "access"; Some "erasure"]).
Proof.
  eexists. split; [by vm_compute|].
  etrans; [|by vm_compute].
  apply (build_templates_groups
           ["de/access.txt"; "en/access.txt"; "de/erasure.txt"] _ "de" eq_refl).
Defined.

Lemma for_of_add_template_returns paths acc :
  (∀ lang, lang ∈ object_prototype_keys → acc !! lang = None) →
  (∃ m, for_of paths add_template acc = Ok m)
  ↔ ∀ cur, cur ∈ paths → (template_entry cur).1 ∉ object_prototype_keys.
Proof.
  revert acc. induction paths as [|cur rest IH]; intros acc Hacc; cbn [for_of].
  - split; [by intros _ cur ?%elem_of_nil|by eexists].
  - destruct (decide ((template_entry cur).1 ∈ object_prototype_keys)) as [Hin|Hnot].
    + assert (add_template cur acc = Throw (not_callable "acc[lang].push")) as ->.
      { unfold add_template. rewrite (Hacc _ Hin).
        by rewrite bool_decide_eq_true_2. }
      split; [by intros [m ?]|].
      intros H. destruct (H cur); [by left|done].
    + assert (∃ acc1, add_template cur acc = Ok acc1
                      ∧ ∀ lang, lang ∈ object_prototype_keys → acc1 !! lang = None)
        as (acc1 & -> & Hacc1).
      { unfold add_template.
        destruct (acc !! (template_entry cur).1) eqn:Hl;
          [|rewrite bool_decide_eq_false_2 by done];
          (eexists; split; [done|]); intros lang Hlang;
          (rewrite lookup_insert_ne; [by apply Hacc|by intros <-]). }
      cbn [mbind result_bind]. rewrite (IH acc1 Hacc1). split.
      * intros H c [->|Hc]%elem_of_cons; [done|by apply H].
      * intros H c Hc. apply H. by right.
Qed.

(** Building the catalogue fails, with a [TypeError], exactly when a
    listed path starts with the name of a property every object inherits,
    such as [constructor/]: [acc[lang]] then finds the inherited value,
    which has no [push]. *)
Theorem build_templates_returns_iff (paths : list string) :
  (∃ templates, build_templates paths = Ok templates)
  ↔ ∀ cur, cur ∈ paths → (template_entry cur).1 ∉ object_prototype_keys.
Proof. unfold build_templates. by apply for_of_add_template_returns. Qed.


(** ** The records the rules can evaluate *)







Section Evaluable.

Variable templates : gmap string (list string).
Variable countries : gmap string country.
Variable cities : list city.



End Evaluable.




(** ** The duplicate-name fix, end to end *)




(** ** A second auto-fix run *)






(** ** Files that do not parse *)




